(** * moonstar: decoders for the MTU.TRK and MTU.TUR dictionary containers

    A shallow embedding of [src/mtu_trk.py] and [src/mtu_tur.py].

    Python integers are unbounded, so they are [Z].  A [bytes] object is a
    list of [Byte.byte]; indexing it yields the byte's value as an integer.
    A [str] is a list of Unicode code points.  Every operation that can
    raise in Python returns a [result]; the exception classes the two
    modules can meet are enumerated in [exn]. *)

From Stdlib Require Import ZArith List Lia Bool Permutation.
From Stdlib Require Import Strings.String Strings.Ascii Strings.Byte.
From Stdlib Require Import Numbers.HexadecimalString.
Import ListNotations.
Open Scope Z_scope.

(** ** The fragment of Python the two modules use *)

Module Py.

Inductive exn : Type :=
| IndexError
| ValueError
| TypeError
| StructError
| UnicodeDecodeError.

Inductive result (A : Type) : Type :=
| Ok (a : A)
| Raise (e : exn).

Arguments Ok {A} a.
Arguments Raise {A} e.

Definition bind {A B : Type} (m : result A) (k : A -> result B) : result B :=
  match m with
  | Ok a => k a
  | Raise e => Raise e
  end.

Definition raises {A : Type} (m : result A) : Prop :=
  exists e, m = Raise e.

Definition char : Type := Z.
Definition str : Type := list char.
Definition bytes : Type := list byte.

(** [data[i]] on a bytes object is an integer in 0..255. *)
Definition byte_val (b : byte) : Z := Z.of_N (Byte.to_N b).

Definition len {A : Type} (l : list A) : Z := Z.of_nat (List.length l).

(** [l[i]]: negative indices count from the end, anything outside
    [-len, len) raises IndexError. *)
Definition index {A : Type} (l : list A) (i : Z) : result A :=
  let j := if i <? 0 then i + len l else i in
  if 0 <=? j then
    match nth_error l (Z.to_nat j) with
    | Some x => Ok x
    | None => Raise IndexError
    end
  else Raise IndexError.

(** Normalisation of a slice bound, as CPython's PySlice_AdjustIndices
    does for step 1. *)
Definition clamp (n i : Z) : Z :=
  if i <? 0 then Z.max 0 (i + n) else Z.min i n.

(** [l[lo:hi]]; never raises. *)
Definition slice {A : Type} (l : list A) (lo hi : Z) : list A :=
  let a := clamp (len l) lo in
  let b := clamp (len l) hi in
  firstn (Z.to_nat (b - a)) (skipn (Z.to_nat a) l).

(** [l[lo:]] and [l[:hi]]. *)
Definition slice_from {A : Type} (l : list A) (lo : Z) : list A :=
  slice l lo (len l).
Definition slice_to {A : Type} (l : list A) (hi : Z) : list A :=
  slice l 0 hi.

(** [chr(i)] as a one-character string. *)
Definition chr (i : Z) : result str :=
  if (0 <=? i) && (i <? 0x110000) then Ok [i] else Raise ValueError.

Definition in_chr_range (i : Z) : Prop := 0 <= i < 0x110000.

(** A string literal of the source, for ASCII text. *)
Definition lit (s : string) : str :=
  map (fun a => Z.of_N (N_of_ascii a)) (list_ascii_of_string s).

(** [s.replace(a, b)] for one-character [a] and [b]. *)
Definition replace (a b : char) (s : str) : str :=
  map (fun c => if c =? a then b else c) s.

(** [struct.unpack("<H", b)[0]] and [struct.unpack("<L", b)[0]]: the
    buffer must have exactly the size of the format. *)
Definition unpack_H (b : bytes) : result Z :=
  match b with
  | [b0; b1] => Ok (byte_val b0 + 256 * byte_val b1)
  | _ => Raise StructError
  end.

Definition unpack_L (b : bytes) : result Z :=
  match b with
  | [b0; b1; b2; b3] =>
      Ok (byte_val b0 + 256 * byte_val b1
          + 65536 * byte_val b2 + 16777216 * byte_val b3)
  | _ => Raise StructError
  end.

(** [data[i]] on bytes. *)
Definition index_b (data : bytes) (i : Z) : result Z :=
  bind (index data i) (fun b => Ok (byte_val b)).

End Py.

Import Py.

Declare Scope py_scope.
Delimit Scope py_scope with py.
Notation "x <- m ;; k" := (bind m (fun x => k))
  (at level 61, m at next level, right associativity) : py_scope.
Notation "' pat <- m ;; k" := (bind m (fun x => match x with pat => k end))
  (at level 61, pat pattern, m at next level, right associativity) : py_scope.
Open Scope py_scope.

(** ** mtu_trk.py: the English-Turkish container *)

Module Trk.

(** The table of suffixes of mtu_trk.py, lines 20-68. *)
Definition suffixes : list str := map lit
  [ (* 7-letter *)
    "ability"; "ibility"; "iveness"; "ization"; "fulness";
    "ousness";
    (* 6-letter *)
    "ectomy"; "edness"; "liness"; "ically"; "lessly";
    (* 5-letter *)
    "ality"; "alism"; "antly"; "arian"; "ating";
    "ation"; "ative"; "atory"; "berry"; "board";
    "bound"; "ering"; "esque"; "fully"; "house";
    "ially"; "iness"; "ingly"; "ional"; "istic";
    "ition"; "ively"; "ivity"; "light"; "ology";
    "orium"; "ously"; "stone"; "ually";
    (* 4-letter *)
    "able"; "ance"; "ancy"; "ally"; "ated";
    "back"; "ball"; "band"; "bing"; "bird";
    "boat"; "bone"; "book"; "cide"; "cule";
    "ding"; "down"; "ence"; "ency"; "ener";
    "ette"; "fold"; "ging"; "head"; "hood";
    "ible"; "ical"; "icle"; "ings"; "ious";
    "itis"; "izer"; "land"; "less"; "like";
    "line"; "ling"; "logy"; "make"; "ment";
    "ming"; "ness"; "ning"; "ntly"; "osis";
    "over"; "ping"; "ring"; "room"; "ship";
    "side"; "sing"; "sman"; "some"; "ster";
    "tail"; "time"; "ting"; "wise"; "wood";
    "work"; "wort";
    (* 3-letter *)
    "acy"; "ade"; "age"; "and"; "ant";
    "ary"; "ate"; "ble"; "boy"; "dom";
    "end"; "ent"; "ery"; "ese"; "ess";
    "est"; "eur"; "ful"; "ger"; "ial";
    "ian"; "ide"; "ied"; "ier"; "ile";
    "ily"; "ine"; "ing"; "ion"; "ise";
    "ish"; "ism"; "ist"; "ite"; "ity";
    "ium"; "ive"; "ize"; "kin"; "ler";
    "let"; "man"; "med"; "nce"; "ned";
    "oid"; "ome"; "oon"; "ory"; "ous";
    "out"; "per"; "red"; "rer"; "sed";
    "ted"; "ter"; "tic"; "ual"; "ule";
    "ure"; "way"; "yer";
    (* 2-letter *)
    "ae"; "al"; "an"; "ar"; "by";
    "ch"; "cy"; "ed"; "el"; "en";
    "er"; "et"; "ey"; "fy"; "ia";
    "ic"; "ie"; "in"; "is"; "ly";
    "nt"; "on"; "or"; "ow"; "ry";
    "st"; "th"; "to"; "ty"; "us" ]%string.

Definition ord_a : Z := 97.

Section Decoder.

(** [str.title] and the cp857 codec belong to the Python library; the
    decoder is parametric in them. *)
Variable title : str -> str.
Variable decode : bytes -> result str.

(** mtu_trk.py, lines 70-109.  The comparisons written [is] in the
    source compare small integers, which CPython interns, so they
    are equalities of values. *)
Definition ExpandMorpheme (prefix_index : Z) (morpheme previous_morpheme : str)
    (instruction suffix_index : Z) : result str :=
  c1 <- chr (ord_a + prefix_index / 26) ;;
  c2 <- chr (ord_a + prefix_index mod 26) ;;
  let prefix := c1 ++ c2 in
  '(prefix, morpheme) <-
    (if (instruction =? 0x00) || (instruction =? 0x12) then
       Ok (prefix, morpheme)
     else if instruction =? 0x20 then
       Ok (title prefix, morpheme)
     else if (0x40 <? instruction) && (instruction <? 0x50) then
       let n := instruction - 0x40 in
       Ok (prefix, slice_to previous_morpheme n ++ morpheme)
     else if (0x60 <? instruction) && (instruction <? 0x70) then
       let n := instruction - 0x60 in
       let morpheme := slice_to previous_morpheme n ++ morpheme in
       Ok (title prefix, morpheme)
     else if instruction =? 0x80 then
       s <- index suffixes suffix_index ;;
       Ok (prefix, morpheme ++ s)
     else if instruction =? 0xA0 then
       s <- index suffixes suffix_index ;;
       Ok (title prefix, morpheme ++ s)
     else if (0xC0 <? instruction) && (instruction <? 0xD0) then
       let n := instruction - 0xC0 in
       s <- index suffixes suffix_index ;;
       Ok (prefix, slice_to previous_morpheme n ++ morpheme ++ s)
     else if (0xE0 <? instruction) && (instruction <? 0xF0) then
       let n := instruction - 0xE0 in
       s <- index suffixes suffix_index ;;
       let morpheme := slice_to previous_morpheme n ++ morpheme ++ s in
       Ok (title prefix, morpheme)
     else Ok (prefix, morpheme)) ;;
  Ok (prefix ++ morpheme).

(** mtu_trk.py, lines 120-124: the offset map, [n] entries of three
    bytes each, widened to four for [struct.unpack]. *)
Fixpoint read_offsets (n : nat) (data : bytes) (pos : Z) : result (list Z * Z) :=
  match n with
  | O => Ok ([], pos)
  | S n' =>
      let bytes := slice data pos (pos + 3) ++ [x00] in
      offset <- unpack_L bytes ;;
      '(offsets, pos') <- read_offsets n' data (pos + 3) ;;
      Ok (offset :: offsets, pos')
  end.

(** Lines 143-145: [rest] is [data[pos:]], the loop looks for the
    first 0xFF and raises IndexError when it runs off the buffer. *)
Fixpoint scan_terminator (rest : bytes) (en_len : Z) : result Z :=
  match rest with
  | [] => Raise IndexError
  | b :: rest' =>
      if byte_val b =? 0xFF then Ok en_len
      else scan_terminator rest' (en_len + 1)
  end.

(** Lines 151-172: the translation of the entry whose 3-byte offset
    field starts at [pos]. *)
Definition read_turkish (data : bytes) (base_offset pos : Z) : result (str * Z) :=
  b1 <- index_b data (pos + 1) ;;
  b2 <- index_b data (pos + 2) ;;
  b0 <- index_b data pos ;;
  let tr_offset := Z.lor (Z.lor b1 (Z.shiftl b2 8)) (Z.shiftl b0 16) in
  let pos := pos + 3 in
  if 0 <? tr_offset then
    let tr_pos := base_offset + tr_offset in
    tr_len <- unpack_H (slice data tr_pos (tr_pos + 2)) ;;
    let tr_pos := tr_pos + 2 in
    if 0 <? tr_len then
      turkish <- decode (slice data tr_pos (tr_pos + tr_len)) ;;
      let turkish := replace 0x60 0x27 turkish in
      let turkish := replace 0xA0 0x23 turkish in
      Ok (turkish, pos)
    else Ok ([], pos)
  else Ok ([], pos).

(** Lines 133-175: the body of the [while] loop.  It returns the new
    position, the new [previous_word] and the entry appended. *)
Definition read_entry (i : Z) (data : bytes) (base_offset pos : Z)
    (previous_word : str) : result (Z * str * (str * str)) :=
  instruction <- index_b data pos ;;
  let pos := pos + 1 in
  '(suffix_index, pos) <-
    (if 0x80 <=? instruction then
       suffix_index <- index_b data pos ;;
       Ok (suffix_index, pos + 1)
     else Ok (0, pos)) ;;
  en_len <- scan_terminator (slice_from data pos) 0 ;;
  english <- decode (slice data pos (pos + en_len)) ;;
  english <- ExpandMorpheme i english previous_word instruction suffix_index ;;
  let previous_word := slice_from english 2 in
  let pos := pos + en_len + 1 in
  '(turkish, pos) <- read_turkish data base_offset pos ;;
  Ok (pos, previous_word, (english, turkish)).

(** Line 132: [while pos < base_offset + offsets[i]].  [None] means
    that [fuel] iterations were not enough. *)
Fixpoint read_bucket (fuel : nat) (i : Z) (data : bytes) (base_offset limit pos : Z)
    (previous_word : str) (dictionary : list (str * str))
  : option (result (Z * str * list (str * str))) :=
  if pos <? limit then
    match fuel with
    | O => None
    | S fuel' =>
        match read_entry i data base_offset pos previous_word with
        | Raise e => Some (Raise e)
        | Ok (pos', previous_word', entry) =>
            read_bucket fuel' i data base_offset limit pos' previous_word'
              (dictionary ++ [entry])
        end
    end
  else Some (Ok (pos, previous_word, dictionary)).

(** Line 130: [for i in range(0, len(offsets))]. *)
Fixpoint read_buckets (fuel : nat) (offsets : list Z) (i : Z) (data : bytes)
    (base_offset pos : Z) (previous_word : str) (dictionary : list (str * str))
  : option (result (list (str * str))) :=
  match offsets with
  | [] => Some (Ok dictionary)
  | offset :: offsets' =>
      match read_bucket fuel i data base_offset (base_offset + offset) pos
              previous_word dictionary with
      | None => None
      | Some (Raise e) => Some (Raise e)
      | Some (Ok (pos', previous_word', dictionary')) =>
          read_buckets fuel offsets' (i + 1) data base_offset pos'
            previous_word' dictionary'
      end
  end.

(** Lines 179-184: one line per entry, the headword padded to 30
    columns. *)
Definition export_line (entry : str * str) : str :=
  let '(english, turkish) := entry in
  english ++ repeat 32 (Z.to_nat (30 - len english)) ++ turkish ++ [10].

(** Lines 111-184; the result is the text handed to [file.write].  The
    [while] loop runs on a fuel of one iteration per byte of the buffer,
    which [ReadFile_terminates] shows to be enough. *)
Definition ReadFile (data : bytes) : option (result str) :=
  let pos := 3 in
  match read_offsets (Z.to_nat (26 * 26)) data pos with
  | Raise e => Some (Raise e)
  | Ok (offsets, pos) =>
      let base_offset := pos in
      match read_buckets (List.length data) offsets 0 data base_offset pos [] [] with
      | None => None
      | Some (Raise e) => Some (Raise e)
      | Some (Ok dictionary) => Some (Ok (List.concat (map export_line dictionary)))
      end
  end.

End Decoder.

(** [str.title] on ASCII text: a letter that follows a letter is
    lowered, any other letter is raised. *)
Definition is_upper (c : char) : bool := (65 <=? c) && (c <=? 90).
Definition is_lower (c : char) : bool := (97 <=? c) && (c <=? 122).

Fixpoint title_from (previous_is_cased : bool) (s : str) : str :=
  match s with
  | [] => []
  | c :: s' =>
      let c' := if previous_is_cased
                then (if is_upper c then c + 32 else c)
                else (if is_lower c then c - 32 else c) in
      c' :: title_from (is_upper c || is_lower c) s'
  end.

Definition title_ascii (s : str) : str := title_from false s.

(** The upper half of Python's cp857 decoding table; 0xFFFE marks the
    three bytes the code page leaves undefined. *)
Definition cp857_high : list Z :=
  [199;252;233;226;228;224;229;231;234;235;232;239;238;305;196;197;
   201;230;198;244;246;242;251;249;304;214;220;248;163;216;350;351;
   225;237;243;250;241;209;286;287;191;174;172;189;188;161;171;187;
   9617;9618;9619;9474;9508;193;194;192;169;9571;9553;9559;9565;162;165;9488;
   9492;9524;9516;9500;9472;9532;227;195;9562;9556;9577;9574;9568;9552;9580;164;
   186;170;202;203;200;65534;205;206;207;9496;9484;9608;9604;166;204;9600;
   211;223;212;210;245;213;181;65534;215;218;219;217;236;255;175;180;
   173;177;65534;190;182;167;247;184;176;168;183;185;179;178;9632;160].

Definition cp857_char (b : byte) : result char :=
  let v := byte_val b in
  if v <? 128 then Ok v
  else
    let c := nth (Z.to_nat (v - 128)) cp857_high 65534 in
    if c =? 65534 then Raise UnicodeDecodeError else Ok c.

Fixpoint decode_cp857 (b : bytes) : result str :=
  match b with
  | [] => Ok []
  | x :: b' =>
      c <- cp857_char x ;;
      s <- decode_cp857 b' ;;
      Ok (c :: s)
  end.

End Trk.

(** ** mtu_tur.py: the Turkish container *)

Module Tur.

(** Line 22: the custom alphabet, 59 characters. *)
Definition alphabet : str :=
  lit "abc" ++ [0xE7] ++ lit "defg" ++ [0x11F] ++ lit "h" ++ [0x131]
  ++ lit "ijklmno" ++ [0xF6] ++ lit "pqrs" ++ [0x15F] ++ lit "tu" ++ [0xFC]
  ++ lit "vwxyz" ++ [0xE2] ++ lit ".........." ++ [0xEE]
  ++ lit ".............." ++ [0xFB].

(** Lines 24-32; [None] is Python's [None]. *)
Definition GetSuffixLength (value : Z) : option Z :=
  if (0x00 <=? value) && (value <? 0xb8) then
    Some (value / 8)
  else if (0xb8 <=? value) && (value <? 0x100) then
    Some (3 + ((value - 0xb8) / 0x18))
  else
    None.

(** Lines 34-47. *)
Definition GetSuffixReodered (suffix : str) (value : Z) : result str :=
  if 0xb8 <=? value then
    let value := (value - 0xb8) mod 0x18 in
    if (0x00 <=? value) && (value <? 0x08) then
      c <- index suffix (-1) ;;
      Ok ([c] ++ slice_to suffix (-1))
    else if (0x08 <=? value) && (value <? 0x10) then
      c <- index suffix 0 ;;
      Ok (slice_from suffix 1 ++ [c])
    else if (0x10 <=? value) && (value <? 0x18) then
      Ok (rev suffix)
    else Ok suffix
  else Ok suffix.

(** Lines 58-59: [for i in range(0, suffix_length)] over the record. *)
Fixpoint direct_letters (n : nat) (instructions : bytes) (i : Z) (suffix : str)
  : result str :=
  match n with
  | O => Ok suffix
  | S n' =>
      k <- index_b instructions (2 + i) ;;
      c <- index alphabet k ;;
      direct_letters n' instructions (i + 1) (suffix ++ [c])
  end.

(** Lines 64-66: the same loop over the 5th section. *)
Fixpoint blob_letters (n : nat) (data : bytes) (pos i : Z) (suffix : str)
  : result str :=
  match n with
  | O => Ok suffix
  | S n' =>
      k <- index_b data (pos + i) ;;
      c <- index alphabet k ;;
      blob_letters n' data pos (i + 1) (suffix ++ [c])
  end.

(** Lines 49-70.  Comparing [None] with an integer raises TypeError. *)
Definition GetSuffix (data instructions : bytes) (base_offset : Z) : result str :=
  let suffix := [] in
  b1 <- index_b instructions 1 ;;
  match GetSuffixLength b1 with
  | None => Raise TypeError
  | Some suffix_length =>
      suffix <-
        (if suffix_length =? 0 then Ok suffix
         else if (1 <=? suffix_length) && (suffix_length <=? 2) then
           direct_letters (Z.to_nat suffix_length) instructions 0 suffix
         else
           offset <- unpack_H (slice instructions 2 4) ;;
           let pos := base_offset + offset in
           blob_letters (Z.to_nat suffix_length) data pos 0 suffix) ;;
      GetSuffixReodered suffix b1
  end.

(** Lines 72-73: [format(value, '02x')]. *)
Definition ByteToHex (value : Z) : str :=
  let digits :=
    lit (HexadecimalString.NilZero.string_of_uint (N.to_hex_uint (Z.abs_N value))) in
  if value <? 0 then [45] ++ repeat 48 (1 - List.length digits) ++ digits
  else repeat 48 (2 - List.length digits) ++ digits.

(** Line 173: the dictionary of voiced consonants. *)
Definition consonants : list (char * char) :=
  [(98, 112); (99, 0xE7); (100, 116); (103, 107); (0x11F, 107)].

Fixpoint dict_get (k : char) (d : list (char * char)) : option char :=
  match d with
  | [] => None
  | (k', v) :: d' => if k =? k' then Some v else dict_get k d'
  end.

(** Lines 75-177.  On a non-empty string [suffix[-1]] is [last suffix]
    and [suffix[:-1]] is [removelast suffix]. *)
Definition ApplyModifications (data : bytes) (prefix suffix : str) : str * str :=
  let suffix :=
    match suffix with
    | [] => suffix
    | _ :: _ =>
        match dict_get (last suffix 0) consonants with
        | Some c => removelast suffix ++ [c]
        | None => suffix
        end
    end in
  (prefix, suffix).

(** Lines 190-204: the text placed in front of every entry. *)
Definition debug_column (record : bytes) : result str :=
  let debug := [] in
  b1 <- index_b record 1 ;;
  let debug := debug ++ ByteToHex (b1 mod 8) ++ lit "    " in
  let debug := debug ++ ByteToHex b1 ++ lit " " in
  b0 <- index_b record 0 ;;
  let debug := debug ++ ByteToHex b0 ++ lit " " in
  let debug := debug ++ lit "   " in
  Ok debug.

(** Lines 185-209: the body of the inner loop; [prefix] is rebound by
    the call of [ApplyModifications]. *)
Definition read_item (data : bytes) (base_offset : Z) (section4 section6 : list bytes)
    (i : Z) (prefix : str) (dictionary : list str) : result (str * list str) :=
  record <- index section4 i ;;
  suffix <- GetSuffix data record base_offset ;;
  section6_index <- index_b record 0 ;;
  modification <- index section6 section6_index ;;
  let '(prefix, suffix) := ApplyModifications modification prefix suffix in
  debug <- debug_column record ;;
  Ok (prefix, dictionary ++ [debug ++ prefix ++ suffix]).

(** Line 184: [for i in range(item_index, item_index + count)]. *)
Fixpoint read_items (n : nat) (data : bytes) (base_offset : Z)
    (section4 section6 : list bytes) (i : Z) (prefix : str) (dictionary : list str)
  : result (list str) :=
  match n with
  | O => Ok dictionary
  | S n' =>
      '(prefix, dictionary) <-
        read_item data base_offset section4 section6 i prefix dictionary ;;
      read_items n' data base_offset section4 section6 (i + 1) prefix dictionary
  end.

(** Lines 181-211, from a given [item_index]. *)
Fixpoint read_prefixes (prefixes : list (str * Z)) (data : bytes) (base_offset : Z)
    (section4 section6 : list bytes) (item_index : Z) (dictionary : list str)
  : result (list str) :=
  match prefixes with
  | [] => Ok dictionary
  | (prefix, count) :: prefixes' =>
      if count =? 0 then
        read_prefixes prefixes' data base_offset section4 section6 item_index dictionary
      else
        dictionary <-
          read_items (Z.to_nat count) data base_offset section4 section6
            item_index prefix dictionary ;;
        read_prefixes prefixes' data base_offset section4 section6
          (item_index + count) dictionary
  end.

(** Lines 179-211; the result is the dictionary after the appends. *)
Definition ReadDictionaryEntries (dictionary : list str) (data : bytes)
    (base_offset : Z) (prefixes : list (str * Z)) (section4 section6 : list bytes)
  : result (list str) :=
  let item_index := 0 in
  read_prefixes prefixes data base_offset section4 section6 item_index dictionary.

(** Lines 222-225, 235-238 and 246-249: [n] little-endian 16-bit
    values. *)
Fixpoint read_words (n : nat) (data : bytes) (pos : Z) : result (list Z * Z) :=
  match n with
  | O => Ok ([], pos)
  | S n' =>
      value <- unpack_H (slice data pos (pos + 2)) ;;
      '(values, pos') <- read_words n' data (pos + 2) ;;
      Ok (value :: values, pos')
  end.

(** Lines 251-255. *)
Fixpoint make_prefixes (n : nat) (letter_count : Z) (section2 : list Z)
    (prefix_index : Z) : result (list (str * Z)) :=
  match n with
  | O => Ok []
  | S n' =>
      c1 <- index alphabet (prefix_index / letter_count) ;;
      c2 <- index alphabet (prefix_index mod letter_count) ;;
      let prefix := [c1] ++ [c2] in
      hi <- index section2 (prefix_index + 1) ;;
      lo <- index section2 prefix_index ;;
      let count := hi - lo in
      prefixes <- make_prefixes n' letter_count section2 (prefix_index + 1) ;;
      Ok ((prefix, count) :: prefixes)
  end.

(** Lines 262-267: records of 14 bytes, of which bytes 1-2 are kept. *)
Fixpoint read_section3 (n : nat) (data : bytes) (pos : Z) : result (list Z * Z) :=
  match n with
  | O => Ok ([], pos)
  | S n' =>
      let pos := pos + 1 in
      value <- unpack_H (slice data pos (pos + 2)) ;;
      let pos := pos + 2 in
      let pos := pos + 11 in
      '(values, pos') <- read_section3 n' data pos ;;
      Ok (value :: values, pos')
  end.

(** Lines 276-278 and 289-291: slices of four bytes; slicing never
    raises. *)
Fixpoint read_records (n : nat) (data : bytes) (pos : Z) : list bytes * Z :=
  match n with
  | O => ([], pos)
  | S n' =>
      let record := slice data pos (pos + 4) in
      let '(records, pos') := read_records n' data (pos + 4) in
      (record :: records, pos')
  end.

(** Lines 213-294, on the contents of the file. *)
Definition Import (dictionary : list str) (data : bytes) : result (list str) :=
  let pos := 0 in
  let pos := pos + 4 in
  '(header, pos) <- read_words 4 data pos ;;
  let letter_count := 32 in
  '(section1, pos) <- read_words (Z.to_nat (letter_count + 1)) data pos ;;
  '(section2, pos) <- read_words (Z.to_nat (letter_count ^ 2 + 1)) data pos ;;
  prefixes <- make_prefixes (Z.to_nat (len section2 - 1)) letter_count section2 0 ;;
  header1 <- index header 1 ;;
  '(section3, pos) <- read_section3 (Z.to_nat header1) data pos ;;
  header0 <- index header 0 ;;
  let '(section4, pos) := read_records (Z.to_nat header0) data pos in
  let base_offset := pos in
  header2 <- index header 2 ;;
  let pos := pos + header2 in
  header3 <- index header 3 ;;
  let '(section6, pos) := read_records (Z.to_nat header3) data pos in
  ReadDictionaryEntries dictionary data base_offset prefixes section4 section6.

(** Lines 296-300: the text handed to [file.write], entry by entry. *)
Definition Export (dictionary : list str) : str :=
  List.concat (map (fun entry => entry ++ [10]) dictionary).

(** Lines 302-306. *)
Definition main (data : bytes) : result str :=
  dictionary <- Import [] data ;;
  Ok (Export dictionary).

End Tur.

(** ** Vocabulary of the specification *)

Module Spec.

Import Tur.

(** The two-letter prefix of slot [prefix_index] of the offset map. *)
Definition two_letters (prefix_index : Z) : str :=
  [Trk.ord_a + prefix_index / 26; Trk.ord_a + prefix_index mod 26].

(** The instruction codes the decoder's table lists. *)
Definition recognized (c : Z) : Prop :=
  c = 0x00 \/ c = 0x12 \/ c = 0x20 \/ 0x41 <= c <= 0x4F \/ 0x61 <= c <= 0x6F
  \/ c = 0x80 \/ c = 0xA0 \/ 0xC1 <= c <= 0xCF \/ 0xE1 <= c <= 0xEF.

(** The three-byte middle-endian integer whose bytes are [b0 b1 b2] in
    file order. *)
Definition middle_endian (b0 b1 b2 : Z) : Z := b1 + 256 * b2 + 65536 * b0.

(** Devoicing of a character: b, c, d, g and g-breve become p, c-cedilla,
    t, k and k. *)
Definition devoice (c : char) : char :=
  if c =? 98 then 112
  else if c =? 99 then 0xE7
  else if c =? 100 then 116
  else if c =? 103 then 107
  else if c =? 0x11F then 107
  else c.

Definition devoice_last (suffix : str) : str :=
  match suffix with
  | [] => []
  | _ :: _ => removelast suffix ++ [devoice (last suffix 0)]
  end.

(** The assembled headword of record [i] filed under [prefix]: the
    prefix followed by the resolved and modified suffix. *)
Definition headword (data : bytes) (base_offset : Z) (section4 section6 : list bytes)
    (i : Z) (prefix : str) : result str :=
  record <- index section4 i ;;
  suffix <- GetSuffix data record base_offset ;;
  section6_index <- index_b record 0 ;;
  modification <- index section6 section6_index ;;
  Ok (prefix ++ snd (ApplyModifications modification prefix suffix)).

(** A line of the output: the debug column of the record, then the
    headword. *)
Definition output_line (data : bytes) (base_offset : Z) (section4 section6 : list bytes)
    (i : Z) (prefix : str) : result str :=
  word <- headword data base_offset section4 section6 i prefix ;;
  record <- index section4 i ;;
  debug <- debug_column record ;;
  Ok (debug ++ word).

(** [range(start, start + n)]. *)
Fixpoint range_from (start : Z) (n : nat) : list Z :=
  match n with
  | O => []
  | S n' => start :: range_from (start + 1) n'
  end.

(** The entries in prefix-then-occurrence order, each with the index of
    its record in section 4: the records of a prefix follow those of the
    prefix before it. *)
Fixpoint entry_slots (prefixes : list (str * Z)) (item_index : Z) : list (Z * str) :=
  match prefixes with
  | [] => []
  | (prefix, count) :: prefixes' =>
      map (fun i => (i, prefix)) (range_from item_index (Z.to_nat count))
      ++ entry_slots prefixes' (item_index + count)
  end.

(** The lines of a list of entries. *)
Fixpoint output_lines (data : bytes) (base_offset : Z) (section4 section6 : list bytes)
    (entries : list (Z * str)) : result (list str) :=
  match entries with
  | [] => Ok []
  | (i, prefix) :: entries' =>
      line <- output_line data base_offset section4 section6 i prefix ;;
      lines <- output_lines data base_offset section4 section6 entries' ;;
      Ok (line :: lines)
  end.

Definition sum (l : list Z) : Z := fold_right Z.add 0 l.

(** [entry_count[i] = offsets[i+1] - offsets[i]]. *)
Fixpoint entry_counts (offsets : list Z) : list Z :=
  match offsets with
  | a :: (b :: _) as rest => (b - a) :: entry_counts rest
  | _ => []
  end.

Fixpoint weakly_increasing (offsets : list Z) : Prop :=
  match offsets with
  | a :: (b :: _) as rest => a <= b /\ weakly_increasing rest
  | _ => True
  end.

(** The instruction codes that attach a suffix of the table. *)
Definition attaches_suffix (c : Z) : Prop :=
  c = 0x80 \/ c = 0xA0 \/ 0xC1 <= c <= 0xCF \/ 0xE1 <= c <= 0xEF.

(** The text cut at its newlines; [line] holds the characters of the
    line being read. *)
Fixpoint split_lines (text line : str) : list str :=
  match text with
  | [] => []
  | c :: text' =>
      if c =? 10 then line :: split_lines text' []
      else split_lines text' (line ++ [c])
  end.

(** A lower-case hexadecimal digit. *)
Definition hex_digit (d : Z) : char := if d <? 10 then 48 + d else 87 + d.

(** The voiced consonants of the devoicing table. *)
Definition voiced : list char := [98; 99; 100; 103; 0x11F].

(** Whether no string occurs twice in a list. *)
Fixpoint distinct (l : list str) : bool :=
  match l with
  | [] => true
  | x :: l' =>
      negb (existsb (fun y => if list_eq_dec Z.eq_dec x y then true else false) l')
      && distinct l'
  end.

(** The prefix of slot [i] of the Turkish prefix table. *)
Definition tur_prefix (i : Z) : str :=
  [nth (Z.to_nat (i / 32)) alphabet 0; nth (Z.to_nat (i mod 32)) alphabet 0].

(** The exceptions of the English-Turkish reader. *)
Definition reader_exception (e : exn) : Prop :=
  e = StructError \/ e = IndexError \/ e = UnicodeDecodeError.

End Spec.

Import Spec.

(** ** Sample containers *)

Module Samples.

(** A Turkish container with one entry: prefix "aa", one record of
    section 4 with selector 0x08 and the letter a, one record of
    section 6. *)
Definition tur_tables : bytes :=
  [x01; x00; x00; x00; x00; x00; x01; x00]
  ++ repeat x00 66
  ++ [x00; x00] ++ List.concat (repeat [x01; x00] 1024).

Definition tur_container : bytes :=
  [x4d; x47; x32; x1a] ++ tur_tables
  ++ [x00; x08; x00; x00]
  ++ [x00; x00; x00; x00].

(** The same container under a magic value of four zero bytes. *)
Definition tur_wrong_magic : bytes :=
  [x00; x00; x00; x00] ++ tur_tables
  ++ [x00; x08; x00; x00]
  ++ [x00; x00; x00; x00].

(** A container whose header declares two records of section 4, a
    suffix blob of 0xFFFF bytes and 0x100 records of section 6, and
    which ends after the first record of section 4. *)
Definition tur_overrun : bytes :=
  [x4d; x47; x32; x1a]
  ++ [x02; x00; x00; x00; xff; xff; x00; x01]
  ++ repeat x00 66
  ++ [x00; x00] ++ List.concat (repeat [x01; x00] 1024)
  ++ [x00; x08; x00; x00].

(** An English-Turkish container with the single entry "able" under the
    prefix "ab": instruction 0x00, morpheme "le", offset field zero. *)
Definition trk_container : bytes :=
  [x00; x00; x00]
  ++ [x00; x00; x00] ++ List.concat (repeat [x07; x00; x00] 675)
  ++ [x00; x6c; x65; xff; x00; x00; x00].

(** Two entries under the prefix "ca": "cathood", stored as the morpheme
    "thood" with instruction 0x00, then the morpheme "ness" with
    instruction 0x43. *)
Definition trk_two_entries : bytes :=
  [x00; x00; x00]
  ++ List.concat (repeat [x00; x00; x00] 52)
  ++ List.concat (repeat [x13; x00; x00] 624)
  ++ [x00; x74; x68; x6f; x6f; x64; xff; x00; x00; x00]
  ++ [x43; x6e; x65; x73; x73; xff; x00; x00; x00].

End Samples.

(** * Facts about the Python fragment *)

Lemma byte_val_range (b : byte) : 0 <= byte_val b < 256.
Proof.
  unfold byte_val. pose proof (Byte.to_N_bounded b). lia.
Qed.

Lemma len_nonneg {A : Type} (l : list A) : 0 <= len l.
Proof. unfold len. lia. Qed.

Lemma len_app {A : Type} (l1 l2 : list A) : len (l1 ++ l2) = len l1 + len l2.
Proof. unfold len. rewrite length_app. lia. Qed.

Lemma slice_nonneg {A : Type} (l : list A) (lo hi : Z) :
  0 <= lo -> 0 <= hi ->
  slice l lo hi =
  firstn (Z.to_nat (Z.min hi (len l) - Z.min lo (len l))) (skipn (Z.to_nat (Z.min lo (len l))) l).
Proof.
  intros Hlo Hhi. unfold slice, clamp.
  destruct (Z.ltb_spec lo 0); [lia|]. destruct (Z.ltb_spec hi 0); [lia|]. reflexivity.
Qed.

Lemma slice_to_firstn {A : Type} (l : list A) (n : Z) :
  0 <= n -> slice_to l n = firstn (Z.to_nat n) l.
Proof.
  intros Hn. unfold slice_to. rewrite slice_nonneg by lia.
  pose proof (len_nonneg l) as Hl. unfold len in *.
  rewrite (Z.min_l 0) by lia. simpl skipn. rewrite Z.sub_0_r.
  destruct (Z.le_ge_cases n (Z.of_nat (List.length l))).
  - rewrite Z.min_l by lia. reflexivity.
  - rewrite Z.min_r by lia. rewrite Nat2Z.id.
    rewrite firstn_all. rewrite firstn_all2; [reflexivity | lia].
Qed.

Lemma slice_from_skipn {A : Type} (l : list A) (n : Z) :
  0 <= n -> slice_from l n = skipn (Z.to_nat n) l.
Proof.
  intros Hn. unfold slice_from. pose proof (len_nonneg l) as Hl.
  rewrite slice_nonneg by lia. unfold len in *.
  rewrite Z.min_id.
  destruct (Z.le_ge_cases n (Z.of_nat (List.length l))).
  - rewrite Z.min_l by lia. apply firstn_all2. rewrite length_skipn. lia.
  - rewrite Z.min_r by lia. rewrite Nat2Z.id. rewrite skipn_all.
    rewrite skipn_all2 by lia. destruct (Z.to_nat _); reflexivity.
Qed.

Lemma slice_length {A : Type} (l : list A) (lo hi : Z) :
  0 <= lo -> 0 <= hi ->
  len (slice l lo hi) = Z.max 0 (Z.min hi (len l) - Z.min lo (len l)).
Proof.
  intros Hlo Hhi. rewrite slice_nonneg by assumption.
  pose proof (len_nonneg l) as Hl. unfold len in *.
  rewrite length_firstn, length_skipn. lia.
Qed.

Lemma index_nonneg {A : Type} (l : list A) (i : Z) :
  0 <= i ->
  index l i = match nth_error l (Z.to_nat i) with Some x => Ok x | None => Raise IndexError end.
Proof.
  intros Hi. unfold index. destruct (Z.ltb_spec i 0); [lia|].
  destruct (Z.leb_spec 0 i); [reflexivity | lia].
Qed.

Lemma index_ok_range {A : Type} (l : list A) (i : Z) (x : A) :
  0 <= i -> index l i = Ok x -> i < len l.
Proof.
  intros Hi. rewrite index_nonneg by assumption.
  destruct (nth_error l (Z.to_nat i)) eqn:E; [|discriminate].
  intros _. assert (Z.to_nat i < List.length l)%nat by (apply nth_error_Some; congruence).
  unfold len. lia.
Qed.

Lemma index_in_range {A : Type} (l : list A) (i : Z) :
  0 <= i < len l -> exists x, index l i = Ok x.
Proof.
  intros Hi. rewrite index_nonneg by lia.
  destruct (nth_error l (Z.to_nat i)) eqn:E; [eauto|].
  apply nth_error_None in E. unfold len in Hi. lia.
Qed.

Lemma index_out_of_range {A : Type} (l : list A) (i : Z) :
  len l <= i -> index l i = Raise IndexError.
Proof.
  intros Hi. pose proof (len_nonneg l). rewrite index_nonneg by lia.
  destruct (nth_error l (Z.to_nat i)) eqn:E; [|reflexivity].
  assert (Z.to_nat i < List.length l)%nat by (apply nth_error_Some; congruence).
  unfold len in *. lia.
Qed.

(** [s[-1]] and [s[:-1]] on a non-empty string. *)
Lemma index_last {A : Type} (x : A) (l : list A) (d : A) :
  index (x :: l) (-1) = Ok (last (x :: l) d).
Proof.
  unfold index. change (-1 <? 0) with true. cbv beta iota.
  pose proof (len_nonneg l) as Hl.
  assert (Hlen : -1 + len (x :: l) = len l) by (unfold len; simpl List.length; lia).
  rewrite Hlen. destruct (Z.leb_spec 0 (len l)); [|lia].
  unfold len. rewrite Nat2Z.id.
  replace (nth_error (x :: l) (List.length l)) with (Some (last (x :: l) d)); [reflexivity|].
  clear. revert x. induction l as [|y l IH]; intros x; [reflexivity|].
  simpl List.length. change (nth_error (x :: y :: l) (S (List.length l)))
    with (nth_error (y :: l) (List.length l)).
  rewrite <- IH. reflexivity.
Qed.

Lemma slice_to_removelast {A : Type} (x : A) (l : list A) :
  slice_to (x :: l) (-1) = removelast (x :: l).
Proof.
  unfold slice_to, slice, clamp. change (0 <? 0) with false. change (-1 <? 0) with true.
  cbv beta iota. pose proof (len_nonneg l) as Hl.
  assert (Hlen : -1 + len (x :: l) = len l) by (unfold len; simpl List.length; lia).
  rewrite Hlen. rewrite Z.max_r by lia. rewrite Z.min_l by apply len_nonneg.
  rewrite Z.sub_0_r. unfold len. rewrite Nat2Z.id. simpl skipn.
  rewrite removelast_firstn_len. simpl List.length. rewrite Nat.pred_succ. reflexivity.
Qed.

Lemma index_b_range (data : bytes) (i v : Z) : index_b data i = Ok v -> 0 <= v < 256.
Proof.
  unfold index_b, bind. destruct (index data i); [|discriminate].
  intros H. inversion H. apply byte_val_range.
Qed.

Lemma unpack_H_ok (b : bytes) (v : Z) : unpack_H b = Ok v -> len b = 2 /\ 0 <= v < 65536.
Proof.
  destruct b as [|b0 [|b1 [|b2 b]]]; try discriminate.
  unfold unpack_H. intros H.
  assert (Hv : v = byte_val b0 + 256 * byte_val b1) by congruence.
  pose proof (byte_val_range b0). pose proof (byte_val_range b1).
  split; [reflexivity | lia].
Qed.

Lemma unpack_H_short (b : bytes) : len b <> 2 -> unpack_H b = Raise StructError.
Proof.
  destruct b as [|b0 [|b1 [|b2 b]]]; try reflexivity. intros H. exfalso. apply H. reflexivity.
Qed.

Lemma unpack_H_two (b : bytes) : len b = 2 -> exists v, unpack_H b = Ok v.
Proof.
  destruct b as [|b0 [|b1 [|b2 b]]]; unfold len; simpl List.length; try lia.
  intros _. eexists. reflexivity.
Qed.

(** * The Instruction Decoder of the English-Turkish container *)

Ltac decide_tests :=
  repeat match goal with
  | |- context [Z.eqb ?a ?b] => destruct (Z.eqb_spec a b); try lia
  | |- context [Z.ltb ?a ?b] => destruct (Z.ltb_spec a b); try lia
  | |- context [Z.leb ?a ?b] => destruct (Z.leb_spec a b); try lia
  end.

Lemma chr_ok (i : Z) : in_chr_range i -> chr i = Ok [i].
Proof.
  unfold in_chr_range, chr. intros H. decide_tests. reflexivity.
Qed.

Lemma chr_second_letter (prefix_index : Z) :
  chr (Trk.ord_a + prefix_index mod 26) = Ok [Trk.ord_a + prefix_index mod 26].
Proof.
  apply chr_ok. unfold in_chr_range, Trk.ord_a.
  pose proof (Z.mod_pos_bound prefix_index 26). lia.
Qed.

(** The slots of the offset map, 0..675, all have a prefix, and it is
    made of two letters of a..z. *)
Lemma offset_map_slot_prefix (prefix_index : Z) :
  0 <= prefix_index < 26 * 26 ->
  in_chr_range (Trk.ord_a + prefix_index / 26)
  /\ Forall (fun c => 97 <= c <= 122) (two_letters prefix_index).
Proof.
  intros H. unfold in_chr_range, two_letters, Trk.ord_a.
  assert (0 <= prefix_index / 26 < 26)
    by (split; [apply Z.div_pos; lia | apply Z.div_lt_upper_bound; lia]).
  pose proof (Z.mod_pos_bound prefix_index 26).
  split; [lia | repeat constructor; lia].
Qed.

Section ExpandFacts.

Variable title : str -> str.

(** C2. With instruction 0x00, with 0x12, and with every instruction
    byte outside the recognized codes, ExpandMorpheme returns the
    two-letter prefix followed by the morpheme, both untransformed, and
    does not raise. *)
Theorem ExpandMorpheme_untransformed
    (prefix_index : Z) (morpheme previous_word : str) (c suffix_index : Z) :
  in_chr_range (Trk.ord_a + prefix_index / 26) ->
  c = 0x00 \/ c = 0x12 \/ ~ recognized c ->
  Trk.ExpandMorpheme title prefix_index morpheme previous_word c suffix_index
  = Ok (two_letters prefix_index ++ morpheme).
Proof.
  intros Hp Hc. unfold Trk.ExpandMorpheme.
  rewrite (chr_ok _ Hp), chr_second_letter. cbn [bind].
  unfold recognized in Hc.
  decide_tests; cbn [orb andb bind]; reflexivity.
Qed.

End ExpandFacts.

(** * Entries of the English-Turkish container *)

Lemma lor_low_high (lo hi k : Z) :
  0 <= k -> 0 <= lo < 2 ^ k -> Z.lor lo (Z.shiftl hi k) = lo + 2 ^ k * hi.
Proof.
  intros Hk Hlo.
  assert (Hland : Z.land lo (Z.shiftl hi k) = 0).
  { apply Z.bits_inj'. intros n Hn. rewrite Z.land_spec, Z.bits_0.
    destruct (Z.lt_ge_cases n k).
    - rewrite Z.shiftl_spec_low by assumption. apply andb_false_r.
    - destruct (Z.eq_dec lo 0) as [->|]; [rewrite Z.bits_0; reflexivity|].
      rewrite (Z.bits_above_log2 lo n); [reflexivity | lia |].
      apply Z.lt_le_trans with k; [|assumption]. apply Z.log2_lt_pow2; lia. }
  rewrite <- Z.lxor_lor by assumption.
  rewrite <- Z.add_nocarry_lxor by assumption.
  rewrite Z.shiftl_mul_pow2 by assumption. lia.
Qed.

(** The offset field is the middle-endian integer of its three bytes. *)
Lemma tr_offset_middle_endian (b0 b1 b2 : Z) :
  0 <= b0 < 256 -> 0 <= b1 < 256 -> 0 <= b2 < 256 ->
  Z.lor (Z.lor b1 (Z.shiftl b2 8)) (Z.shiftl b0 16) = middle_endian b0 b1 b2.
Proof.
  intros H0 H1 H2. unfold middle_endian.
  rewrite (lor_low_high b1 b2 8) by lia.
  change (2 ^ 8) with 256.
  rewrite (lor_low_high (b1 + 256 * b2) b0 16).
  - change (2 ^ 16) with 65536. reflexivity.
  - lia.
  - change (2 ^ 16) with 65536. lia.
Qed.

Section EntryFacts.

Variable title : str -> str.
Variable decode : bytes -> result str.

(** C8. Let b0 b1 b2 be the three bytes of an entry's offset field and
    tr_offset their middle-endian value.  If tr_offset is zero, or the
    16-bit length read at base_offset + tr_offset is zero, the translation
    is the empty string and nothing is raised.  If both are non-zero, the
    translation is the decoding of the tr_len bytes that follow the
    length, with backticks replaced by apostrophes and U+00A0, the
    decoding of the sense separator, replaced by '#'.  The translation of
    every entry read is obtained this way. *)
Theorem translation_lookup (data : bytes) (base_offset pos b0 b1 b2 : Z) :
  index_b data pos = Ok b0 ->
  index_b data (pos + 1) = Ok b1 ->
  index_b data (pos + 2) = Ok b2 ->
  let tr_offset := middle_endian b0 b1 b2 in
  let tr_pos := base_offset + tr_offset in
  (tr_offset = 0 ->
     Trk.read_turkish decode data base_offset pos = Ok ([], pos + 3))
  /\ (forall tr_len,
        tr_offset <> 0 ->
        unpack_H (slice data tr_pos (tr_pos + 2)) = Ok tr_len ->
        (tr_len = 0 ->
           Trk.read_turkish decode data base_offset pos = Ok ([], pos + 3))
        /\ (tr_len <> 0 ->
              Trk.read_turkish decode data base_offset pos
              = (turkish <- decode (slice data (tr_pos + 2) (tr_pos + 2 + tr_len)) ;;
                 Ok (replace 0xA0 0x23 (replace 0x60 0x27 turkish), pos + 3))))
  /\ (forall i previous_word pos' previous_word' english turkish,
        Trk.read_entry title decode i data base_offset pos previous_word
        = Ok (pos', previous_word', (english, turkish)) ->
        exists p, Trk.read_turkish decode data base_offset p = Ok (turkish, pos')).
Proof.
  intros H0 H1 H2 tr_offset tr_pos.
  pose proof (index_b_range _ _ _ H0) as R0.
  pose proof (index_b_range _ _ _ H1) as R1.
  pose proof (index_b_range _ _ _ H2) as R2.
  assert (Hnonneg : 0 <= tr_offset) by (unfold tr_offset, middle_endian; lia).
  assert (Hunfold : Trk.read_turkish decode data base_offset pos
    = if 0 <? tr_offset then
        tr_len <- unpack_H (slice data tr_pos (tr_pos + 2)) ;;
        if 0 <? tr_len then
          turkish <- decode (slice data (tr_pos + 2) (tr_pos + 2 + tr_len)) ;;
          Ok (replace 0xA0 0x23 (replace 0x60 0x27 turkish), pos + 3)
        else Ok ([], pos + 3)
      else Ok ([], pos + 3)).
  { unfold Trk.read_turkish. rewrite H0, H1, H2. cbn [bind].
    rewrite tr_offset_middle_endian by assumption. reflexivity. }
  split; [|split].
  - intros Hz. rewrite Hunfold, Hz. reflexivity.
  - intros tr_len Hnz Hlen. rewrite Hunfold.
    destruct (Z.ltb_spec 0 tr_offset); [|lia].
    rewrite Hlen. cbn [bind].
    apply unpack_H_ok in Hlen. destruct Hlen as [_ Hlen].
    split; intros Hl.
    + rewrite Hl. reflexivity.
    + destruct (Z.ltb_spec 0 tr_len); [reflexivity | lia].
  - intros i previous_word pos' previous_word' english turkish Hentry.
    unfold Trk.read_entry in Hentry.
    destruct (index_b data pos) as [instruction|]; [|discriminate].
    cbn [bind] in Hentry.
    destruct (if 0x80 <=? instruction
              then suffix_index <- index_b data (pos + 1) ;; Ok (suffix_index, pos + 1 + 1)
              else Ok (0, pos + 1)) as [[suffix_index p1]|]; [|discriminate].
    cbn [bind] in Hentry.
    destruct (Trk.scan_terminator (slice_from data p1) 0) as [en_len|]; [|discriminate].
    cbn [bind] in Hentry.
    destruct (decode (slice data p1 (p1 + en_len))) as [morpheme|]; [|discriminate].
    cbn [bind] in Hentry.
    destruct (Trk.ExpandMorpheme title i morpheme previous_word instruction suffix_index)
      as [word|]; [|discriminate].
    cbn [bind] in Hentry.
    destruct (Trk.read_turkish decode data base_offset (p1 + en_len + 1))
      as [[t p2]|] eqn:Ht; [|discriminate].
    cbn [bind] in Hentry. exists (p1 + en_len + 1).
    rewrite Ht. congruence.
Qed.

(** The word handed to the next entry is the headword just assembled
    without its first two characters. *)
Lemma read_entry_previous_word (i : Z) (data : bytes) (base_offset pos : Z)
    (previous_word : str) (pos' : Z) (previous_word' english turkish : str) :
  Trk.read_entry title decode i data base_offset pos previous_word
  = Ok (pos', previous_word', (english, turkish)) ->
  previous_word' = skipn 2 english.
Proof.
  intros Hentry. unfold Trk.read_entry in Hentry.
  destruct (index_b data pos) as [instruction|]; [|discriminate].
  cbn [bind] in Hentry.
  destruct (if 0x80 <=? instruction
            then suffix_index <- index_b data (pos + 1) ;; Ok (suffix_index, pos + 1 + 1)
            else Ok (0, pos + 1)) as [[suffix_index p1]|]; [|discriminate].
  cbn [bind] in Hentry.
  destruct (Trk.scan_terminator (slice_from data p1) 0) as [en_len|]; [|discriminate].
  cbn [bind] in Hentry.
  destruct (decode (slice data p1 (p1 + en_len))) as [morpheme|]; [|discriminate].
  cbn [bind] in Hentry.
  destruct (Trk.ExpandMorpheme title i morpheme previous_word instruction suffix_index)
    as [word|]; [|discriminate].
  cbn [bind] in Hentry.
  destruct (Trk.read_turkish decode data base_offset (p1 + en_len + 1))
    as [[t p2]|]; [|discriminate].
  cbn [bind] in Hentry.
  assert (previous_word' = slice_from word 2 /\ english = word) as [-> ->]
    by (split; congruence).
  apply slice_from_skipn. lia.
Qed.

(** C1. For an instruction byte c with 0x41 <= c <= 0x4F, ExpandMorpheme
    returns the two-letter prefix of prefix_index, then the first
    c - 0x40 characters of the previous word, then the morpheme; the
    prefix is not capitalized.  The prefix exists when chr accepts the
    code point of its first letter, which it does for every slot of
    the offset map.  The previous word that the loop of ReadFile hands
    over is the headword assembled last, without its first two
    characters. *)
Theorem ExpandMorpheme_prepend
    (prefix_index : Z) (morpheme previous_word : str) (c suffix_index : Z) :
  in_chr_range (Trk.ord_a + prefix_index / 26) ->
  0x41 <= c <= 0x4F ->
  Trk.ExpandMorpheme title prefix_index morpheme previous_word c suffix_index
  = Ok (two_letters prefix_index
        ++ firstn (Z.to_nat (c - 0x40)) previous_word ++ morpheme)
  /\ (forall i data base_offset pos previous pos' previous' english turkish,
        Trk.read_entry title decode i data base_offset pos previous
        = Ok (pos', previous', (english, turkish)) ->
        previous' = skipn 2 english).
Proof.
  intros Hp Hc. split.
  - unfold Trk.ExpandMorpheme.
    rewrite (chr_ok _ Hp), chr_second_letter. cbn [bind].
    decide_tests. cbn [orb andb bind].
    rewrite slice_to_firstn by lia. reflexivity.
  - intros i data base_offset pos previous pos' previous' english turkish.
    apply read_entry_previous_word.
Qed.

End EntryFacts.

(** * The Suffix Resolver of the Turkish container *)

(** C3. For a byte value b, GetSuffixLength returns b div 8 when
    b < 0xB8, which lies in 0..22, and 3 + (b - 0xB8) div 24 when
    0xB8 <= b <= 0xFF, which lies in 3..5. *)
Theorem GetSuffixLength_byte (b : Z) :
  0x00 <= b <= 0xFF ->
  (b < 0xB8 ->
     Tur.GetSuffixLength b = Some (b / 8) /\ 0 <= b / 8 <= 22)
  /\ (0xB8 <= b ->
        Tur.GetSuffixLength b = Some (3 + (b - 0xB8) / 24)
        /\ 3 <= 3 + (b - 0xB8) / 24 <= 5).
Proof.
  intros Hb. unfold Tur.GetSuffixLength. split; intros Hcase.
  - decide_tests. cbn [andb]. split; [reflexivity|].
    split; [apply Z.div_pos; lia | apply Z.lt_succ_r, Z.div_lt_upper_bound; lia].
  - decide_tests. cbn [andb]. split; [reflexivity|].
    assert (0 <= (b - 0xB8) / 24 < 3); [|lia].
    split; [apply Z.div_pos; lia | apply Z.div_lt_upper_bound; lia].
Qed.

Lemma index_last_nonempty {A : Type} (l : list A) (d : A) :
  l <> [] -> index l (-1) = Ok (last l d).
Proof.
  destruct l as [|x l]; [congruence|]. intros _. apply index_last.
Qed.

Lemma slice_to_removelast_nonempty {A : Type} (l : list A) :
  l <> [] -> slice_to l (-1) = removelast l.
Proof.
  destruct l as [|x l]; [congruence|]. intros _. apply slice_to_removelast.
Qed.

(** The three transforms of GetSuffixReodered, by bucket of
    (value - 0xb8) mod 0x18. *)
Lemma reorder_rotate_right (suffix : str) (value : Z) :
  suffix <> [] -> 0xb8 <= value -> (value - 0xb8) mod 0x18 < 0x08 ->
  Tur.GetSuffixReodered suffix value = Ok (last suffix 0 :: removelast suffix).
Proof.
  intros Hs Hv Hb. unfold Tur.GetSuffixReodered.
  pose proof (Z.mod_pos_bound (value - 0xb8) 0x18).
  decide_tests. cbn [andb].
  rewrite (index_last_nonempty suffix 0 Hs). cbn [bind].
  rewrite slice_to_removelast_nonempty by assumption. reflexivity.
Qed.

Lemma reorder_rotate_left (x : char) (suffix : str) (value : Z) :
  0xb8 <= value -> 0x08 <= (value - 0xb8) mod 0x18 < 0x10 ->
  Tur.GetSuffixReodered (x :: suffix) value = Ok (suffix ++ [x]).
Proof.
  intros Hv Hb. unfold Tur.GetSuffixReodered.
  decide_tests. cbn [andb].
  rewrite index_nonneg by lia. cbn [Z.to_nat nth_error bind].
  rewrite slice_from_skipn by lia. reflexivity.
Qed.

Lemma reorder_reverse (suffix : str) (value : Z) :
  0xb8 <= value -> 0x10 <= (value - 0xb8) mod 0x18 ->
  Tur.GetSuffixReodered suffix value = Ok (rev suffix).
Proof.
  intros Hv Hb. unfold Tur.GetSuffixReodered.
  pose proof (Z.mod_pos_bound (value - 0xb8) 0x18).
  decide_tests. cbn [andb]. reflexivity.
Qed.

Lemma reorder_identity (suffix : str) (value : Z) :
  value < 0xb8 -> Tur.GetSuffixReodered suffix value = Ok suffix.
Proof.
  intros Hv. unfold Tur.GetSuffixReodered.
  destruct (Z.leb_spec 0xb8 value); [lia | reflexivity].
Qed.

(** C4. On a non-empty suffix, the reversal applied twice gives the
    suffix back, and so do the rotation to the right followed by the
    rotation to the left and the rotation to the left followed by the
    rotation to the right; the transforms are those GetSuffixReodered
    selects for selector bytes of the three buckets. *)
Theorem reorder_round_trip (suffix : str) (v_right v_left v_reverse : Z) :
  suffix <> [] ->
  0xb8 <= v_right -> (v_right - 0xb8) mod 0x18 < 0x08 ->
  0xb8 <= v_left -> 0x08 <= (v_left - 0xb8) mod 0x18 < 0x10 ->
  0xb8 <= v_reverse -> 0x10 <= (v_reverse - 0xb8) mod 0x18 ->
  (s <- Tur.GetSuffixReodered suffix v_reverse ;; Tur.GetSuffixReodered s v_reverse)
  = Ok suffix
  /\ (s <- Tur.GetSuffixReodered suffix v_right ;; Tur.GetSuffixReodered s v_left)
     = Ok suffix
  /\ (s <- Tur.GetSuffixReodered suffix v_left ;; Tur.GetSuffixReodered s v_right)
     = Ok suffix.
Proof.
  intros Hs Hr Hrb Hl Hlb Hv Hvb. repeat split.
  - rewrite !reorder_reverse by assumption. cbn [bind].
    rewrite reorder_reverse by assumption. rewrite rev_involutive. reflexivity.
  - rewrite reorder_rotate_right by assumption. cbn [bind].
    rewrite reorder_rotate_left by assumption.
    rewrite <- app_removelast_last by assumption. reflexivity.
  - destruct suffix as [|x l]; [congruence|].
    rewrite reorder_rotate_left by assumption. cbn [bind].
    rewrite reorder_rotate_right; [| intros E; destruct l; discriminate | assumption..].
    rewrite last_last, removelast_last. reflexivity.
Qed.

(** * The Entry Assembler of the Turkish container *)

Lemma dict_get_consonants (c : char) :
  match Tur.dict_get c Tur.consonants with
  | Some v => v = devoice c
  | None => devoice c = c
  end.
Proof.
  unfold Tur.consonants, Tur.dict_get, devoice.
  repeat match goal with
  | |- context [Z.eqb ?a ?b] => destruct (Z.eqb_spec a b)
  end; reflexivity.
Qed.

(** ApplyModifications never looks at the record it is given. *)
Lemma ApplyModifications_eq (data : bytes) (prefix suffix : str) :
  Tur.ApplyModifications data prefix suffix = (prefix, devoice_last suffix).
Proof.
  unfold Tur.ApplyModifications, devoice_last.
  destruct suffix as [|x l]; [reflexivity|].
  pose proof (dict_get_consonants (last (x :: l) 0)) as Hd.
  destruct (Tur.dict_get (last (x :: l) 0) Tur.consonants) as [v|].
  - rewrite Hd. reflexivity.
  - rewrite Hd. rewrite <- app_removelast_last by discriminate. reflexivity.
Qed.

Lemma removelast_cons_length {A : Type} (x : A) (l : list A) :
  List.length (removelast (x :: l)) = List.length l.
Proof.
  revert x. induction l as [|y l IH]; intros x; [reflexivity|].
  change (removelast (x :: y :: l)) with (x :: removelast (y :: l)).
  cbn [List.length]. rewrite IH. reflexivity.
Qed.

Lemma removelast_nth_error {A : Type} (l : list A) (i : nat) :
  (S i < List.length l)%nat -> nth_error (removelast l) i = nth_error l i.
Proof.
  revert i. induction l as [|x l IH]; intros i Hi; [simpl in Hi; lia|].
  destruct l as [|y l]; [simpl in Hi; lia|].
  change (removelast (x :: y :: l)) with (x :: removelast (y :: l)).
  destruct i as [|i]; [reflexivity|].
  cbn [nth_error]. apply IH. cbn [List.length] in *. lia.
Qed.

Lemma devoice_last_length (suffix : str) :
  List.length (devoice_last suffix) = List.length suffix.
Proof.
  destruct suffix as [|x l]; [reflexivity|]. unfold devoice_last.
  rewrite length_app, removelast_cons_length. simpl. lia.
Qed.

Lemma devoice_last_init (suffix : str) (i : nat) :
  (S i < List.length suffix)%nat ->
  nth_error (devoice_last suffix) i = nth_error suffix i.
Proof.
  destruct suffix as [|x l]; [simpl; lia|]. intros Hi. unfold devoice_last.
  rewrite nth_error_app1
    by (rewrite removelast_cons_length; simpl List.length in Hi; lia).
  apply removelast_nth_error. assumption.
Qed.

(** C10. ApplyModifications returns the prefix unchanged and the suffix
    with its last character devoiced when it is one of b, c, d, g,
    g-breve (to p, c-cedilla, t, k, k); the result does not depend on
    the record, the length of the suffix is kept and so is every
    character but the last. *)
Theorem ApplyModifications_frame (data : bytes) (prefix suffix : str) :
  Tur.ApplyModifications data prefix suffix = (prefix, devoice_last suffix)
  /\ (forall data' : bytes,
        Tur.ApplyModifications data' prefix suffix
        = Tur.ApplyModifications data prefix suffix)
  /\ List.length (devoice_last suffix) = List.length suffix
  /\ (forall i : nat,
        (S i < List.length suffix)%nat ->
        nth_error (devoice_last suffix) i = nth_error suffix i)
  /\ (~ In (last suffix 0) [98; 99; 100; 103; 0x11F] ->
      devoice_last suffix = suffix).
Proof.
  split; [apply ApplyModifications_eq|].
  split; [intros data'; rewrite !ApplyModifications_eq; reflexivity|].
  split; [apply devoice_last_length|].
  split; [intros i; apply devoice_last_init|].
  intros Hnot. destruct suffix as [|x l]; [reflexivity|]. unfold devoice_last.
  assert (Hd : devoice (last (x :: l) 0) = last (x :: l) 0).
  { unfold devoice. cbn [In] in Hnot.
    repeat match goal with
    | |- context [Z.eqb ?a ?b] => destruct (Z.eqb_spec a b)
    end; try reflexivity; exfalso; apply Hnot; auto 6. }
  rewrite Hd. symmetry. apply app_removelast_last. discriminate.
Qed.

(** C5. A record filed under the modification record 0f 59 02 00, which
    the notes of ApplyModifications describe as capitalizing the first
    letter, is assembled with its first letter in lower case: the entry
    ends in the headword "aba". *)
Theorem capitalization_record_ignored :
  Tur.ApplyModifications [x0f; x59; x02; x00] (lit "ab") (lit "a")
  = (lit "ab", lit "a")
  /\ headword [] 0 [[x00; x08; x00; x00]] [[x0f; x59; x02; x00]] 0 (lit "ab")
     = Ok (lit "aba")
  /\ Tur.ReadDictionaryEntries [] [] 0 [(lit "ab", 1)]
       [[x00; x08; x00; x00]] [[x0f; x59; x02; x00]]
     = Ok [lit "00    08 00    aba"].
Proof.
  repeat split; vm_compute; reflexivity.
Qed.

(** * The walk of the prefix table *)

Section Walk.

Variable data : bytes.
Variable base_offset : Z.
Variables section4 section6 : list bytes.

Let line := output_line data base_offset section4 section6.
Let lines := output_lines data base_offset section4 section6.

(** One turn of the inner loop appends the line of record [i] and leaves
    the prefix as it was. *)
Lemma read_item_line (i : Z) (prefix : str) (dictionary : list str) :
  Tur.read_item data base_offset section4 section6 i prefix dictionary
  = (l <- line i prefix ;; Ok (prefix, dictionary ++ [l])).
Proof.
  unfold line, output_line, headword, Tur.read_item.
  destruct (index section4 i) as [record|e] eqn:Hrec; [|reflexivity].
  cbn [bind].
  destruct (Tur.GetSuffix data record base_offset) as [suffix|]; [|reflexivity].
  cbn [bind].
  destruct (index_b record 0) as [k|]; [|reflexivity]. cbn [bind].
  destruct (index section6 k) as [modification|]; [|reflexivity]. cbn [bind].
  rewrite ApplyModifications_eq. cbn [snd].
  destruct (Tur.debug_column record) as [debug|]; reflexivity.
Qed.

Lemma read_items_lines (n : nat) (i : Z) (prefix : str) (dictionary : list str) :
  Tur.read_items n data base_offset section4 section6 i prefix dictionary
  = (ls <- lines (map (fun i => (i, prefix)) (range_from i n)) ;;
     Ok (dictionary ++ ls)).
Proof.
  revert i dictionary. induction n as [|n IH]; intros i dictionary.
  - cbn. rewrite app_nil_r. reflexivity.
  - cbn [Tur.read_items range_from map]. rewrite read_item_line.
    unfold lines. cbn [output_lines]. fold line. fold lines.
    destruct (line i prefix) as [l|]; [|reflexivity]. cbn [bind].
    rewrite IH.
    destruct (lines (map (fun i => (i, prefix)) (range_from (i + 1) n))) as [ls|];
      [|reflexivity].
    cbn [bind]. rewrite <- app_assoc. reflexivity.
Qed.

Lemma output_lines_app (entries1 entries2 : list (Z * str)) :
  lines (entries1 ++ entries2)
  = (l1 <- lines entries1 ;; l2 <- lines entries2 ;; Ok (l1 ++ l2)).
Proof.
  induction entries1 as [|[i p] entries1 IH].
  - cbn [app]. unfold lines at 2. cbn [output_lines bind].
    destruct (lines entries2); reflexivity.
  - unfold lines. cbn [app output_lines]. fold line. fold lines.
    destruct (line i p) as [l|]; [|reflexivity]. cbn [bind].
    rewrite IH.
    destruct (lines entries1) as [l1|]; [|reflexivity]. cbn [bind].
    destruct (lines entries2) as [l2|]; reflexivity.
Qed.

Lemma output_lines_length (entries : list (Z * str)) (ls : list str) :
  lines entries = Ok ls -> len ls = len entries.
Proof.
  revert ls. induction entries as [|[i p] entries IH]; intros ls.
  - unfold lines. cbn. intros H. inversion H. reflexivity.
  - unfold lines. cbn [output_lines]. fold line. fold lines.
    destruct (line i p) as [l|]; [|discriminate]. cbn [bind].
    destruct (lines entries) as [ls'|] eqn:E; [|discriminate]. cbn [bind].
    intros H. inversion H. specialize (IH ls' eq_refl).
    unfold len in *. cbn [List.length]. lia.
Qed.

(** The two loops of ReadDictionaryEntries append the lines of the
    entries in order, each under the prefix of its bucket. *)
Lemma read_prefixes_lines (prefixes : list (str * Z)) (item_index : Z)
    (dictionary : list str) :
  Tur.read_prefixes prefixes data base_offset section4 section6 item_index dictionary
  = (ls <- lines (entry_slots prefixes item_index) ;; Ok (dictionary ++ ls)).
Proof.
  revert item_index dictionary.
  induction prefixes as [|[prefix count] prefixes IH]; intros item_index dictionary.
  - cbn. rewrite app_nil_r. reflexivity.
  - cbn [Tur.read_prefixes entry_slots]. rewrite output_lines_app.
    destruct (Z.eqb_spec count 0) as [->|Hnz].
    + cbn [Z.to_nat range_from map]. unfold lines at 1. cbn [output_lines bind].
      rewrite IH. rewrite Z.add_0_r.
      destruct (lines (entry_slots prefixes item_index)); reflexivity.
    + rewrite read_items_lines.
      destruct (lines (map (fun i => (i, prefix))
                         (range_from item_index (Z.to_nat count)))) as [l1|];
        [|reflexivity].
      cbn [bind]. rewrite IH.
      destruct (lines (entry_slots prefixes (item_index + count))) as [l2|];
        [|reflexivity].
      cbn [bind]. rewrite app_assoc. reflexivity.
Qed.

End Walk.

Lemma range_from_length (start : Z) (n : nat) : List.length (range_from start n) = n.
Proof.
  revert start. induction n as [|n IH]; intros start; [reflexivity|].
  cbn [range_from List.length]. rewrite IH. reflexivity.
Qed.

Lemma range_from_app (start : Z) (n m : nat) :
  range_from start (n + m) = range_from start n ++ range_from (start + Z.of_nat n) m.
Proof.
  revert start. induction n as [|n IH]; intros start.
  - cbn [Nat.add range_from app]. f_equal. lia.
  - cbn [Nat.add range_from app]. rewrite IH. do 3 f_equal. lia.
Qed.

Lemma entry_slots_length (prefixes : list (str * Z)) (item_index : Z) :
  Forall (fun pc => 0 <= snd pc) prefixes ->
  len (entry_slots prefixes item_index) = sum (map snd prefixes).
Proof.
  intros Hpos. revert item_index.
  induction Hpos as [|[prefix count] prefixes Hcount Hrest IH]; intros item_index;
    [reflexivity|].
  cbn [entry_slots map snd sum fold_right]. fold (sum (map snd prefixes)).
  rewrite len_app, IH. unfold len. rewrite length_map, range_from_length.
  cbn [snd] in Hcount. lia.
Qed.

(** When no count is negative the records are taken in the order of
    section 4, without gap or repetition. *)
Lemma entry_slots_consecutive (prefixes : list (str * Z)) (item_index : Z) :
  Forall (fun pc => 0 <= snd pc) prefixes ->
  map fst (entry_slots prefixes item_index)
  = range_from item_index (Z.to_nat (sum (map snd prefixes))).
Proof.
  intros Hpos. revert item_index.
  induction Hpos as [|[prefix count] prefixes Hcount Hrest IH]; intros item_index;
    [reflexivity|].
  cbn [snd] in Hcount.
  cbn [entry_slots map snd sum fold_right]. fold (sum (map snd prefixes)).
  assert (Hsum : Forall (fun c => 0 <= c) (map snd prefixes)).
  { rewrite Forall_forall in *. intros c Hc. apply in_map_iff in Hc.
    destruct Hc as [pc [<- Hin]]. apply Hrest. exact Hin. }
  assert (Htotal : 0 <= sum (map snd prefixes)).
  { clear - Hsum. induction Hsum as [|c l Hc Hl IH]; [cbn; lia|].
    cbn [sum fold_right]. fold (sum l). lia. }
  rewrite Z2Nat.inj_add by assumption. rewrite range_from_app.
  rewrite map_app, map_map. cbn [fst]. rewrite map_id, IH.
  rewrite Z2Nat.id by assumption. reflexivity.
Qed.

(** C6. The text written for the Turkish container is the lines of the
    entries in prefix-then-occurrence order, one per line; each line is
    the debug column of the entry's record followed by the assembled
    headword (the prefix and the resolved, modified suffix). *)
Theorem output_is_debug_column_and_headword
    (dictionary : list str) (data : bytes) (base_offset : Z)
    (prefixes : list (str * Z)) (section4 section6 : list bytes) :
  (d <- Tur.ReadDictionaryEntries dictionary data base_offset prefixes
          section4 section6 ;;
   Ok (Tur.Export d))
  = (ls <- output_lines data base_offset section4 section6 (entry_slots prefixes 0) ;;
     Ok (Tur.Export dictionary ++ List.concat (map (fun l => l ++ [10]) ls))).
Proof.
  unfold Tur.ReadDictionaryEntries. rewrite read_prefixes_lines.
  destruct (output_lines data base_offset section4 section6 (entry_slots prefixes 0))
    as [ls|]; [|reflexivity].
  cbn [bind]. unfold Tur.Export. rewrite map_app, concat_app. reflexivity.
Qed.

(** * The number of entries *)

Lemma index_skipn {A : Type} (l : list A) (i : Z) (x : A) :
  0 <= i -> index l i = Ok x ->
  skipn (Z.to_nat i) l = x :: skipn (S (Z.to_nat i)) l.
Proof.
  intros Hi. rewrite index_nonneg by assumption.
  generalize (Z.to_nat i) as n. clear i Hi. intros n. revert l.
  induction n as [|n IH]; intros [|y l]; cbn [nth_error]; try discriminate.
  - intros H. inversion H. reflexivity.
  - intros H. cbn [skipn]. rewrite (IH l H). reflexivity.
Qed.

Lemma entry_counts_cons2 (a b : Z) (l : list Z) :
  entry_counts (a :: b :: l) = (b - a) :: entry_counts (b :: l).
Proof. reflexivity. Qed.

Lemma entry_counts_length (l : list Z) :
  List.length (entry_counts l) = pred (List.length l).
Proof.
  induction l as [|a l IH]; [reflexivity|].
  destruct l as [|b l]; [reflexivity|].
  rewrite entry_counts_cons2. cbn [List.length pred] in *. rewrite IH. reflexivity.
Qed.

Lemma weakly_increasing_counts (l : list Z) :
  weakly_increasing l -> Forall (fun c => 0 <= c) (entry_counts l).
Proof.
  induction l as [|a l IH]; [constructor|].
  destruct l as [|b l]; [constructor|].
  intros [Hab Hrest]. rewrite entry_counts_cons2.
  constructor; [lia | apply IH; exact Hrest].
Qed.

(** The counts add up to the distance between the last and the first
    offset. *)
Lemma entry_counts_telescope (a : Z) (l : list Z) :
  sum (entry_counts (a :: l)) = last (a :: l) 0 - a.
Proof.
  revert a. induction l as [|b l IH]; intros a; [cbn; lia|].
  rewrite entry_counts_cons2. cbn [sum fold_right]. fold (sum (entry_counts (b :: l))).
  rewrite IH. change (last (a :: b :: l) 0) with (last (b :: l) 0). lia.
Qed.

(** The loop of lines 251-255 stores the differences of consecutive
    offsets. *)
Lemma make_prefixes_counts (n : nat) (letter_count : Z) (section2 : list Z)
    (prefix_index : Z) (prefixes : list (str * Z)) :
  0 <= prefix_index ->
  Tur.make_prefixes n letter_count section2 prefix_index = Ok prefixes ->
  map snd prefixes
  = firstn n (entry_counts (skipn (Z.to_nat prefix_index) section2)).
Proof.
  revert prefix_index prefixes. induction n as [|n IH]; intros idx prefixes Hidx.
  - cbn. intros H. inversion H. reflexivity.
  - cbn [Tur.make_prefixes].
    destruct (index Tur.alphabet (idx / letter_count)) as [c1|]; [|discriminate].
    destruct (index Tur.alphabet (idx mod letter_count)) as [c2|]; [|discriminate].
    cbn [bind].
    destruct (index section2 (idx + 1)) as [hi|] eqn:Hhi; [|discriminate].
    destruct (index section2 idx) as [lo|] eqn:Hlo; [|discriminate].
    cbn [bind].
    destruct (Tur.make_prefixes n letter_count section2 (idx + 1)) as [rest|] eqn:Hrest;
      [|discriminate].
    cbn [bind]. intros H. inversion H. subst prefixes. clear H.
    apply IH in Hrest; [|lia].
    apply index_skipn in Hhi; [|lia]. apply index_skipn in Hlo; [|lia].
    replace (Z.to_nat (idx + 1)) with (S (Z.to_nat idx)) in * by lia.
    rewrite Hlo, Hhi. rewrite entry_counts_cons2. cbn [map snd firstn].
    rewrite Hrest, Hhi. reflexivity.
Qed.

Lemma make_prefixes_all_counts (letter_count : Z) (section2 : list Z)
    (prefixes : list (str * Z)) :
  Tur.make_prefixes (Z.to_nat (len section2 - 1)) letter_count section2 0 = Ok prefixes ->
  map snd prefixes = entry_counts section2.
Proof.
  intros H. apply make_prefixes_counts in H; [|lia].
  rewrite H. cbn [Z.to_nat skipn]. apply firstn_all2.
  rewrite entry_counts_length. unfold len. lia.
Qed.

(** Whenever ReadDictionaryEntries returns, it has appended one entry
    per unit of count. *)
Lemma ReadDictionaryEntries_count
    (dictionary : list str) (data : bytes) (base_offset : Z)
    (prefixes : list (str * Z)) (section4 section6 : list bytes)
    (dictionary' : list str) :
  Forall (fun pc => 0 <= snd pc) prefixes ->
  Tur.ReadDictionaryEntries dictionary data base_offset prefixes section4 section6
  = Ok dictionary' ->
  len dictionary' = len dictionary + sum (map snd prefixes).
Proof.
  intros Hpos. unfold Tur.ReadDictionaryEntries. rewrite read_prefixes_lines.
  destruct (output_lines data base_offset section4 section6 (entry_slots prefixes 0))
    as [ls|] eqn:Hls; [|discriminate].
  cbn [bind]. intros H. inversion H.
  apply output_lines_length in Hls.
  rewrite len_app, Hls, entry_slots_length by assumption. reflexivity.
Qed.

Lemma make_prefixes_nonneg (letter_count : Z) (offsets : list Z)
    (prefixes : list (str * Z)) :
  weakly_increasing offsets ->
  Tur.make_prefixes (Z.to_nat (len offsets - 1)) letter_count offsets 0 = Ok prefixes ->
  Forall (fun pc => 0 <= snd pc) prefixes.
Proof.
  intros Hinc Hprefixes.
  apply make_prefixes_all_counts in Hprefixes.
  apply weakly_increasing_counts in Hinc. rewrite <- Hprefixes in Hinc.
  rewrite Forall_forall in *. intros pc Hin. apply Hinc.
  apply in_map. exact Hin.
Qed.

(** C9. When the offsets of the prefix table are weakly increasing, the
    prefix table built from them holds the counts
    offsets[i+1] - offsets[i], the decoder returns as soon as each of
    the records decodes, and whenever it returns it has appended as many
    entries as the sum of the counts. *)
Theorem entries_appended_count
    (dictionary : list str) (data : bytes) (base_offset letter_count : Z)
    (offsets : list Z) (prefixes : list (str * Z)) (section4 section6 : list bytes) :
  weakly_increasing offsets ->
  Tur.make_prefixes (Z.to_nat (len offsets - 1)) letter_count offsets 0 = Ok prefixes ->
  map snd prefixes = entry_counts offsets
  /\ (forall ls,
        output_lines data base_offset section4 section6 (entry_slots prefixes 0)
        = Ok ls ->
        Tur.ReadDictionaryEntries dictionary data base_offset prefixes section4 section6
        = Ok (dictionary ++ ls))
  /\ (forall dictionary',
        Tur.ReadDictionaryEntries dictionary data base_offset prefixes section4 section6
        = Ok dictionary' ->
        len dictionary' = len dictionary + sum (entry_counts offsets)).
Proof.
  intros Hinc Hprefixes.
  pose proof (make_prefixes_all_counts _ _ _ Hprefixes) as Hcounts.
  pose proof (make_prefixes_nonneg _ _ _ Hinc Hprefixes) as Hpos.
  split; [exact Hcounts|]. split.
  - intros ls Hls. unfold Tur.ReadDictionaryEntries.
    rewrite read_prefixes_lines, Hls. reflexivity.
  - intros dictionary' Hread. rewrite <- Hcounts.
    apply (ReadDictionaryEntries_count _ _ _ _ _ _ _ Hpos Hread).
Qed.

(** * The Section Reader *)

Lemma slice_exact {A : Type} (l : list A) (pos n : Z) :
  0 <= pos -> 0 <= n -> pos + n <= len l -> len (slice l pos (pos + n)) = n.
Proof.
  intros Hpos Hn Hfit. rewrite slice_length by lia. lia.
Qed.

Lemma slice_cut {A : Type} (l : list A) (pos n : Z) :
  0 <= pos -> 0 < n -> len l < pos + n -> len (slice l pos (pos + n)) < n.
Proof.
  intros Hpos Hn Hcut. rewrite slice_length by lia. pose proof (len_nonneg l). lia.
Qed.

Lemma read_words_ok (data : bytes) (n : nat) (pos : Z) :
  0 <= pos -> pos + 2 * Z.of_nat n <= len data ->
  exists values,
    Tur.read_words n data pos = Ok (values, pos + 2 * Z.of_nat n)
    /\ List.length values = n.
Proof.
  revert pos. induction n as [|n IH]; intros pos Hpos Hfit.
  - exists []. cbn [Tur.read_words]. split; [f_equal; f_equal; lia | reflexivity].
  - destruct (unpack_H_two (slice data pos (pos + 2))) as [v Hv];
      [apply slice_exact; lia|].
    destruct (IH (pos + 2)) as [values [Hvalues Hlen]]; [lia..|].
    exists (v :: values). cbn [Tur.read_words]. rewrite Hv. cbn [bind].
    rewrite Hvalues. cbn [bind].
    split; [f_equal; f_equal; lia | cbn [List.length]; congruence].
Qed.

Lemma read_words_short (data : bytes) (n : nat) (pos : Z) :
  (0 < n)%nat -> 0 <= pos -> len data < pos + 2 * Z.of_nat n ->
  Tur.read_words n data pos = Raise StructError.
Proof.
  revert pos. induction n as [|n IH]; intros pos Hn Hpos Hcut; [lia|].
  cbn [Tur.read_words].
  destruct (Z.lt_ge_cases (len data) (pos + 2)) as [Hshort|Hfit].
  - rewrite unpack_H_short; [reflexivity|].
    pose proof (slice_cut data pos 2). lia.
  - destruct (unpack_H_two (slice data pos (pos + 2))) as [v Hv];
      [apply slice_exact; lia|].
    rewrite Hv. cbn [bind]. rewrite IH by lia. reflexivity.
Qed.

Lemma read_section3_short (data : bytes) (n : nat) (pos : Z) :
  (0 < n)%nat -> 0 <= pos -> len data < pos + 14 * (Z.of_nat n - 1) + 3 ->
  Tur.read_section3 n data pos = Raise StructError.
Proof.
  revert pos. induction n as [|n IH]; intros pos Hn Hpos Hcut; [lia|].
  cbn [Tur.read_section3].
  destruct (Z.lt_ge_cases (len data) (pos + 3)) as [Hshort|Hfit].
  - rewrite unpack_H_short; [reflexivity|].
    pose proof (slice_cut data (pos + 1) 2). lia.
  - destruct (unpack_H_two (slice data (pos + 1) (pos + 1 + 2))) as [v Hv];
      [apply slice_exact; lia|].
    rewrite Hv. cbn [bind]. rewrite IH by lia. reflexivity.
Qed.

Lemma alphabet_length : len Tur.alphabet = 59.
Proof. reflexivity. Qed.

Lemma make_prefixes_ok (section2 : list Z) (n : nat) (prefix_index : Z) :
  0 <= prefix_index ->
  prefix_index + Z.of_nat n < len section2 ->
  prefix_index + Z.of_nat n <= 1024 ->
  exists prefixes, Tur.make_prefixes n 32 section2 prefix_index = Ok prefixes.
Proof.
  revert prefix_index. induction n as [|n IH]; intros idx Hidx Hlen Hmax.
  - exists []. reflexivity.
  - cbn [Tur.make_prefixes].
    destruct (index_in_range Tur.alphabet (idx / 32)) as [c1 Hc1].
    { rewrite alphabet_length.
      split; [apply Z.div_pos; lia | apply Z.div_lt_upper_bound; lia]. }
    destruct (index_in_range Tur.alphabet (idx mod 32)) as [c2 Hc2].
    { rewrite alphabet_length. pose proof (Z.mod_pos_bound idx 32). lia. }
    destruct (index_in_range section2 (idx + 1)) as [hi Hhi]; [lia|].
    destruct (index_in_range section2 idx) as [lo Hlo]; [lia|].
    destruct (IH (idx + 1)) as [rest Hrest]; [lia..|].
    rewrite Hc1, Hc2, Hhi, Hlo. cbn [bind]. rewrite Hrest. cbn [bind].
    eexists. reflexivity.
Qed.

Lemma unpack_L_short (b : bytes) : len b <> 4 -> unpack_L b = Raise StructError.
Proof.
  destruct b as [|b0 [|b1 [|b2 [|b3 [|b4 b]]]]]; try reflexivity.
  intros H. exfalso. apply H. reflexivity.
Qed.

Lemma unpack_L_four (b : bytes) : len b = 4 -> exists v, unpack_L b = Ok v.
Proof.
  destruct b as [|b0 [|b1 [|b2 [|b3 [|b4 b]]]]]; unfold len; cbn [List.length]; try lia.
  intros _. eexists. reflexivity.
Qed.

Section OffsetMap.

Variable title : str -> str.
Variable decode : bytes -> result str.

Lemma read_offsets_short (data : bytes) (n : nat) (pos : Z) :
  (0 < n)%nat -> 0 <= pos -> len data < pos + 3 * Z.of_nat n ->
  Trk.read_offsets n data pos = Raise StructError.
Proof.
  revert pos. induction n as [|n IH]; intros pos Hn Hpos Hcut; [lia|].
  cbn [Trk.read_offsets].
  destruct (Z.lt_ge_cases (len data) (pos + 3)) as [Hshort|Hfit].
  - rewrite unpack_L_short; [reflexivity|].
    rewrite len_app. pose proof (slice_cut data pos 3).
    change (len [x00]) with 1. lia.
  - destruct (unpack_L_four (slice data pos (pos + 3) ++ [x00])) as [v Hv].
    { rewrite len_app, slice_exact by lia. reflexivity. }
    rewrite Hv. cbn [bind]. rewrite IH by lia. reflexivity.
Qed.

Lemma ReadFile_short (data : bytes) :
  len data < 2031 -> Trk.ReadFile title decode data = Some (Raise StructError).
Proof.
  intros Hshort. unfold Trk.ReadFile.
  rewrite read_offsets_short; [reflexivity | lia..].
Qed.

End OffsetMap.

(** The body of Import with its constants evaluated. *)
Lemma Import_unfold (dictionary : list str) (data : bytes) :
  Tur.Import dictionary data
  = ('(header, pos) <- Tur.read_words 4 data 4 ;;
     '(section1, pos) <- Tur.read_words 33 data pos ;;
     '(section2, pos) <- Tur.read_words 1025 data pos ;;
     prefixes <- Tur.make_prefixes (Z.to_nat (len section2 - 1)) 32 section2 0 ;;
     header1 <- index header 1 ;;
     '(section3, pos) <- Tur.read_section3 (Z.to_nat header1) data pos ;;
     header0 <- index header 0 ;;
     let '(section4, pos) := Tur.read_records (Z.to_nat header0) data pos in
     header2 <- index header 2 ;;
     header3 <- index header 3 ;;
     let '(section6, _) := Tur.read_records (Z.to_nat header3) data (pos + header2) in
     Tur.ReadDictionaryEntries dictionary data pos prefixes section4 section6).
Proof. reflexivity. Qed.

(** On a buffer of at least 2128 bytes the header and the first two
    sections are read, and the prefix table is built. *)
Lemma fixed_tables_read (data : bytes) :
  2128 <= len data ->
  exists header section1 section2 prefixes,
    Tur.read_words 4 data 4 = Ok (header, 12)
    /\ List.length header = 4%nat
    /\ Tur.read_words 33 data 12 = Ok (section1, 78)
    /\ Tur.read_words 1025 data 78 = Ok (section2, 2128)
    /\ Tur.make_prefixes (Z.to_nat (len section2 - 1)) 32 section2 0 = Ok prefixes.
Proof.
  intros Hlen.
  destruct (read_words_ok data 4 4) as [header [Hh Hhl]]; [lia..|].
  destruct (read_words_ok data 33 12) as [section1 [H1 _]]; [lia..|].
  destruct (read_words_ok data 1025 78) as [section2 [H2 H2l]]; [lia..|].
  destruct (make_prefixes_ok section2 (Z.to_nat (len section2 - 1)) 0)
    as [prefixes Hp]; [unfold len; lia..|].
  exists header, section1, section2, prefixes.
  repeat split; assumption.
Qed.

(** C7. The read is aborted with struct.error, before any entry is
    assembled, when the buffer ends inside the header, section 1 or
    section 2 of the Turkish container (its first 2128 bytes), when it
    ends before the 16-bit field of the last record section 3 declares,
    and when it ends inside the offset map of the English-Turkish
    container (its first 2031 bytes). *)
Theorem truncated_tables_abort (dictionary : list str) (data : bytes) :
  (len data < 2128 -> Tur.Import dictionary data = Raise StructError)
  /\ (forall header pos header1,
        Tur.read_words 4 data 4 = Ok (header, pos) ->
        index header 1 = Ok header1 ->
        2128 <= len data < 2128 + 14 * (header1 - 1) + 3 ->
        Tur.Import dictionary data = Raise StructError)
  /\ (forall (title : str -> str) (decode : bytes -> result str),
        len data < 2031 ->
        Trk.ReadFile title decode data = Some (Raise StructError)).
Proof.
  split; [|split].
  - intros Hshort. rewrite Import_unfold.
    destruct (Z.lt_ge_cases (len data) 12) as [H12|H12].
    { rewrite read_words_short by lia. reflexivity. }
    destruct (read_words_ok data 4 4) as [header [Hh _]]; [lia..|].
    rewrite Hh. cbn [bind].
    change (4 + 2 * Z.of_nat 4) with 12.
    destruct (Z.lt_ge_cases (len data) 78) as [H78|H78].
    { rewrite read_words_short by lia. reflexivity. }
    destruct (read_words_ok data 33 12) as [section1 [H1 _]]; [lia..|].
    rewrite H1. cbn [bind].
    change (12 + 2 * Z.of_nat 33) with 78.
    rewrite read_words_short by lia. reflexivity.
  - intros header pos header1 Hheader Hheader1 Hcut.
    destruct (fixed_tables_read data) as (h & s1 & s2 & prefixes & Hh & _ & H1 & H2 & Hp);
      [lia|].
    rewrite Hheader in Hh. inversion Hh. subst h pos. clear Hh.
    rewrite Import_unfold, Hheader. cbn [bind].
    rewrite H1. cbn [bind]. rewrite H2. cbn [bind]. rewrite Hp. cbn [bind].
    rewrite Hheader1. cbn [bind].
    rewrite read_section3_short by lia. reflexivity.
  - intros title decode. apply ReadFile_short.
Qed.

Lemma read_words_pos (data : bytes) (n : nat) (pos pos' : Z) (values : list Z) :
  Tur.read_words n data pos = Ok (values, pos') -> pos' = pos + 2 * Z.of_nat n.
Proof.
  revert pos values. induction n as [|n IH]; intros pos values.
  - cbn [Tur.read_words]. intros H. inversion H. lia.
  - cbn [Tur.read_words].
    destruct (unpack_H (slice data pos (pos + 2))) as [v|]; [|discriminate].
    cbn [bind].
    destruct (Tur.read_words n data (pos + 2)) as [[rest p]|] eqn:Hrest; [|discriminate].
    cbn [bind]. intros H. inversion H. subst. apply IH in Hrest. lia.
Qed.

(** The count of C9 for a whole container: section 2 is the table of
    1025 offsets that starts at byte 78. *)
Lemma Import_entries_count (dictionary : list str) (data : bytes)
    (section2 : list Z) (pos : Z) (dictionary' : list str) :
  Tur.read_words 1025 data 78 = Ok (section2, pos) ->
  weakly_increasing section2 ->
  Tur.Import dictionary data = Ok dictionary' ->
  len dictionary' = len dictionary + sum (entry_counts section2).
Proof.
  intros Hsection2 Hinc. rewrite Import_unfold.
  destruct (Tur.read_words 4 data 4) as [[header p1]|] eqn:Hh; [|discriminate].
  apply read_words_pos in Hh. change (4 + 2 * Z.of_nat 4) with 12 in Hh. subst p1.
  cbn [bind].
  destruct (Tur.read_words 33 data 12) as [[section1 p2]|] eqn:H1; [|discriminate].
  apply read_words_pos in H1. change (12 + 2 * Z.of_nat 33) with 78 in H1. subst p2.
  cbn [bind]. rewrite Hsection2. cbn [bind].
  destruct (Tur.make_prefixes (Z.to_nat (len section2 - 1)) 32 section2 0)
    as [prefixes|] eqn:Hp; [|discriminate].
  cbn [bind].
  destruct (index header 1) as [header1|]; [|discriminate]. cbn [bind].
  destruct (Tur.read_section3 (Z.to_nat header1) data pos) as [[section3 p3]|];
    [|discriminate].
  cbn [bind].
  destruct (index header 0) as [header0|]; [|discriminate]. cbn [bind].
  destruct (Tur.read_records (Z.to_nat header0) data p3) as [section4 p4].
  destruct (index header 2) as [header2|]; [|discriminate]. cbn [bind].
  destruct (index header 3) as [header3|]; [|discriminate]. cbn [bind].
  destruct (Tur.read_records (Z.to_nat header3) data (p4 + header2)) as [section6 p6].
  intros Hread.
  rewrite <- (make_prefixes_all_counts _ _ _ Hp).
  apply (ReadDictionaryEntries_count _ _ _ _ _ _ _
           (make_prefixes_nonneg _ _ _ Hinc Hp) Hread).
Qed.

(** * Termination of ReadFile *)

Lemma scan_terminator_bounds (rest : bytes) (k en_len : Z) :
  Trk.scan_terminator rest k = Ok en_len -> k <= en_len < k + len rest.
Proof.
  revert k. induction rest as [|b rest IH]; intros k; cbn [Trk.scan_terminator].
  - discriminate.
  - assert (Hlen : len (b :: rest) = len rest + 1)
      by (unfold len; cbn [List.length]; lia).
    pose proof (len_nonneg rest) as Hrest.
    destruct (byte_val b =? 0xFF).
    + intros Hscan. inversion Hscan. lia.
    + intros Hscan. apply IH in Hscan. lia.
Qed.

Lemma index_b_ok_range (data : bytes) (i v : Z) :
  0 <= i -> index_b data i = Ok v -> i < len data.
Proof.
  intros Hi. unfold index_b.
  destruct (index data i) as [b|] eqn:E; [|discriminate].
  intros _. apply (index_ok_range _ _ _ Hi E).
Qed.

Lemma read_offsets_pos (data : bytes) (n : nat) (pos pos' : Z) (offsets : list Z) :
  0 <= pos ->
  Trk.read_offsets n data pos = Ok (offsets, pos') ->
  pos' = pos + 3 * Z.of_nat n /\ ((0 < n)%nat -> pos' <= len data).
Proof.
  revert pos offsets. induction n as [|n IH]; intros pos offsets Hpos.
  - cbn [Trk.read_offsets]. intros H. inversion H. split; lia.
  - cbn [Trk.read_offsets].
    destruct (Z.lt_ge_cases (len data) (pos + 3)) as [Hshort|Hfit].
    { rewrite unpack_L_short; [discriminate|].
      rewrite len_app. pose proof (slice_cut data pos 3).
      change (len [x00]) with 1. lia. }
    destruct (unpack_L (slice data pos (pos + 3) ++ [x00])) as [v|]; [|discriminate].
    cbn [bind].
    destruct (Trk.read_offsets n data (pos + 3)) as [[rest p]|] eqn:Hrest; [|discriminate].
    cbn [bind]. intros H. inversion H. subst.
    apply IH in Hrest; [|lia]. destruct Hrest as [Hp Hle].
    split; [lia|]. intros _.
    destruct n as [|n]; [lia | apply Hle; lia].
Qed.

Section Termination.

Variable title : str -> str.
Variable decode : bytes -> result str.

(** Every entry read moves the position forward and keeps it inside the
    buffer. *)
Lemma read_entry_advances (i : Z) (data : bytes) (base_offset pos : Z)
    (previous_word : str) (pos' : Z) (previous_word' : str) (entry : str * str) :
  0 <= pos ->
  Trk.read_entry title decode i data base_offset pos previous_word
  = Ok (pos', previous_word', entry) ->
  pos < pos' <= len data.
Proof.
  intros Hpos Hentry. unfold Trk.read_entry in Hentry.
  destruct (index_b data pos) as [instruction|] eqn:Hi; [|discriminate].
  cbn [bind] in Hentry.
  destruct (if 0x80 <=? instruction
            then suffix_index <- index_b data (pos + 1) ;; Ok (suffix_index, pos + 1 + 1)
            else Ok (0, pos + 1)) as [[suffix_index p1]|] eqn:Hs; [|discriminate].
  assert (Hp1 : pos < p1).
  { destruct (0x80 <=? instruction).
    - destruct (index_b data (pos + 1)); [|discriminate].
      cbn [bind] in Hs. inversion Hs. lia.
    - inversion Hs. lia. }
  cbn [bind] in Hentry.
  destruct (Trk.scan_terminator (slice_from data p1) 0) as [en_len|] eqn:Hscan;
    [|discriminate].
  apply scan_terminator_bounds in Hscan.
  cbn [bind] in Hentry.
  destruct (decode (slice data p1 (p1 + en_len))) as [morpheme|]; [|discriminate].
  cbn [bind] in Hentry.
  destruct (Trk.ExpandMorpheme title i morpheme previous_word instruction suffix_index)
    as [word|]; [|discriminate].
  cbn [bind] in Hentry.
  destruct (Trk.read_turkish decode data base_offset (p1 + en_len + 1))
    as [[t p2]|] eqn:Ht; [|discriminate].
  cbn [bind] in Hentry. inversion Hentry. subst. clear Hentry.
  unfold Trk.read_turkish in Ht.
  destruct (index_b data (p1 + en_len + 1 + 1)) as [b1|]; [|discriminate].
  cbn [bind] in Ht.
  destruct (index_b data (p1 + en_len + 1 + 2)) as [b2|] eqn:Hb2; [|discriminate].
  apply index_b_ok_range in Hb2; [|lia].
  cbn [bind] in Ht.
  destruct (index_b data (p1 + en_len + 1)) as [b0|]; [|discriminate].
  cbn [bind] in Ht.
  assert (pos' = p1 + en_len + 1 + 3).
  { destruct (0 <? _) in Ht; [|inversion Ht; reflexivity].
    destruct (unpack_H _) as [tr_len|] in Ht; [|discriminate].
    cbn [bind] in Ht.
    destruct (0 <? tr_len) in Ht; [|inversion Ht; reflexivity].
    destruct (decode _) in Ht; [|discriminate].
    cbn [bind] in Ht. inversion Ht. reflexivity. }
  lia.
Qed.

(** A fuel larger than what is left of the buffer is enough for the
    [while] loop. *)
Lemma read_bucket_terminates (fuel : nat) (i : Z) (data : bytes)
    (base_offset limit pos : Z) (previous_word : str) (dictionary : list (str * str)) :
  0 <= pos <= len data -> len data - pos < Z.of_nat fuel ->
  exists r,
    Trk.read_bucket title decode fuel i data base_offset limit pos previous_word dictionary
    = Some r
    /\ (forall pos' previous_word' dictionary',
          r = Ok (pos', previous_word', dictionary') -> pos <= pos' <= len data).
Proof.
  revert pos previous_word dictionary.
  induction fuel as [|fuel IH]; intros pos previous_word dictionary Hpos Hfuel; [lia|].
  cbn [Trk.read_bucket]. destruct (pos <? limit).
  - destruct (Trk.read_entry title decode i data base_offset pos previous_word)
      as [[[pos1 previous1] entry]|e] eqn:Hentry.
    + apply read_entry_advances in Hentry; [|lia].
      destruct (IH pos1 previous1 (dictionary ++ [entry])) as [r [Hr Hbound]]; [lia..|].
      exists r. split; [exact Hr|].
      intros pos' previous_word' dictionary' Heq.
      specialize (Hbound _ _ _ Heq). lia.
    + exists (Raise e). split; [reflexivity | discriminate].
  - eexists. split; [reflexivity|].
    intros pos' previous_word' dictionary' Heq. inversion Heq. lia.
Qed.

Lemma read_buckets_terminates (fuel : nat) (offsets : list Z) (i : Z) (data : bytes)
    (base_offset pos : Z) (previous_word : str) (dictionary : list (str * str)) :
  0 < pos <= len data -> len data <= Z.of_nat fuel ->
  Trk.read_buckets title decode fuel offsets i data base_offset pos previous_word dictionary
  <> None.
Proof.
  revert i pos previous_word dictionary.
  induction offsets as [|offset offsets IH]; intros i pos previous_word dictionary Hpos Hfuel.
  - discriminate.
  - cbn [Trk.read_buckets].
    destruct (read_bucket_terminates fuel i data base_offset (base_offset + offset)
                pos previous_word dictionary) as [r [Hr Hbound]]; [lia..|].
    rewrite Hr. destruct r as [[[pos1 previous1] dictionary1]|e]; [|discriminate].
    specialize (Hbound _ _ _ eq_refl). apply IH; lia.
Qed.

(** ReadFile returns or raises on every buffer: the fuel it is given,
    the length of the buffer, is never used up. *)
Lemma ReadFile_terminates (data : bytes) : Trk.ReadFile title decode data <> None.
Proof.
  unfold Trk.ReadFile.
  destruct (Trk.read_offsets (Z.to_nat (26 * 26)) data 3) as [[offsets pos]|e] eqn:Hoff;
    [|discriminate].
  apply read_offsets_pos in Hoff; [|lia]. destruct Hoff as [Hpos Hle].
  assert (0 < pos <= len data) by (split; [lia | apply Hle; lia]).
  pose proof (read_buckets_terminates (List.length data) offsets 0 data pos pos [] [])
    as Hterm.
  destruct (Trk.read_buckets title decode (List.length data) offsets 0 data pos pos [] []) as [[d|e]|].
  - discriminate.
  - discriminate.
  - exfalso. apply Hterm; [assumption | unfold len; lia | reflexivity].
Qed.

End Termination.

(** * The decoders on the sample containers *)

Example tur_container_output :
  Tur.main Samples.tur_container = Ok (lit "00    08 00    aaa" ++ [10]).
Proof. vm_compute. reflexivity. Qed.

Example trk_container_output :
  Trk.ReadFile Trk.title_ascii Trk.decode_cp857 Samples.trk_container
  = Some (Ok (lit "able" ++ repeat 32 26 ++ [10])).
Proof. vm_compute. reflexivity. Qed.

Example trk_two_entries_output :
  Trk.ReadFile Trk.title_ascii Trk.decode_cp857 Samples.trk_two_entries
  = Some (Ok (lit "cathood" ++ repeat 32 23 ++ [10]
              ++ lit "cathoness" ++ repeat 32 21 ++ [10])).
Proof. vm_compute. reflexivity. Qed.

Example ExpandMorpheme_ability :
  Trk.ExpandMorpheme Trk.title_ascii 1 (lit "le") [] 0x80 0 = Ok (lit "ableability")
  /\ Trk.ExpandMorpheme Trk.title_ascii 1 (lit "le") (lit "cd") 0xE1 194
     = Ok (lit "Abcleus").
Proof. split; vm_compute; reflexivity. Qed.

Example ApplyModifications_devoiced :
  snd (Tur.ApplyModifications [] (lit "ab") (lit "ad")) = lit "at".
Proof. vm_compute. reflexivity. Qed.

(** * Instances *)

Lemma ExpandMorpheme_prepend_cathood :
  in_chr_range (Trk.ord_a + 52 / 26)
  /\ 0x41 <= 0x43 <= 0x4F
  /\ Trk.ExpandMorpheme Trk.title_ascii 52 (lit "ness") (lit "cathood") 0x43 0
     = Ok (lit "ca" ++ lit "cat" ++ lit "ness").
Proof.
  assert (Hp : in_chr_range (Trk.ord_a + 52 / 26)) by (vm_compute; split; congruence).
  assert (Hc : 0x41 <= 0x43 <= 0x4F) by lia.
  split; [exact Hp|]. split; [exact Hc|].
  exact (proj1 (ExpandMorpheme_prepend Trk.title_ascii Trk.decode_cp857 52
                  (lit "ness") (lit "cathood") 0x43 0 Hp Hc)).
Defined.

Lemma ExpandMorpheme_untransformed_0x13 :
  in_chr_range (Trk.ord_a + 1 / 26)
  /\ (0x13 = 0x00 \/ 0x13 = 0x12 \/ ~ recognized 0x13)
  /\ Trk.ExpandMorpheme Trk.title_ascii 1 (lit "le") (lit "cathood") 0x13 7
     = Ok (lit "ab" ++ lit "le").
Proof.
  assert (Hp : in_chr_range (Trk.ord_a + 1 / 26)) by (vm_compute; split; congruence).
  assert (Hc : 0x13 = 0x00 \/ 0x13 = 0x12 \/ ~ recognized 0x13)
    by (right; right; unfold recognized; lia).
  split; [exact Hp|]. split; [exact Hc|].
  exact (ExpandMorpheme_untransformed Trk.title_ascii 1 (lit "le") (lit "cathood")
           0x13 7 Hp Hc).
Defined.

Lemma GetSuffixLength_byte_0xc8 :
  0x00 <= 0xC8 <= 0xFF
  /\ 0xB8 <= 0xC8
  /\ Tur.GetSuffixLength 0xC8 = Some (3 + (0xC8 - 0xB8) / 24)
  /\ 3 <= 3 + (0xC8 - 0xB8) / 24 <= 5.
Proof.
  assert (Hb : 0x00 <= 0xC8 <= 0xFF) by lia.
  assert (Hhigh : 0xB8 <= 0xC8) by lia.
  split; [exact Hb|]. split; [exact Hhigh|].
  exact (proj2 (GetSuffixLength_byte 0xC8 Hb) Hhigh).
Defined.

Lemma reorder_round_trip_abcd :
  lit "abcd" <> []
  /\ Tur.GetSuffixReodered (lit "abcd") 0xb8 = Ok (lit "dabc")
  /\ Tur.GetSuffixReodered (lit "abcd") 0xc0 = Ok (lit "bcda")
  /\ Tur.GetSuffixReodered (lit "abcd") 0xc8 = Ok (lit "dcba")
  /\ (s <- Tur.GetSuffixReodered (lit "abcd") 0xc8 ;; Tur.GetSuffixReodered s 0xc8)
     = Ok (lit "abcd")
  /\ (s <- Tur.GetSuffixReodered (lit "abcd") 0xb8 ;; Tur.GetSuffixReodered s 0xc0)
     = Ok (lit "abcd")
  /\ (s <- Tur.GetSuffixReodered (lit "abcd") 0xc0 ;; Tur.GetSuffixReodered s 0xb8)
     = Ok (lit "abcd").
Proof.
  assert (Hs : lit "abcd" <> []) by discriminate.
  split; [exact Hs|].
  split; [reflexivity|]. split; [reflexivity|]. split; [reflexivity|].
  apply (reorder_round_trip (lit "abcd") 0xb8 0xc0 0xc8 Hs);
    vm_compute; try split; congruence.
Defined.

Lemma translation_lookup_sample :
  let data := [x00; x03; x00; x02; x00; x60; xff] in
  index_b data 0 = Ok 0
  /\ index_b data (0 + 1) = Ok 3
  /\ index_b data (0 + 2) = Ok 0
  /\ middle_endian 0 3 0 <> 0
  /\ unpack_H (slice data 3 5) = Ok 2
  /\ Trk.read_turkish Trk.decode_cp857 data 0 0 = Ok (lit "'#", 3).
Proof.
  intros data.
  assert (H0 : index_b data 0 = Ok 0) by reflexivity.
  assert (H1 : index_b data (0 + 1) = Ok 3) by reflexivity.
  assert (H2 : index_b data (0 + 2) = Ok 0) by reflexivity.
  assert (Hoff : middle_endian 0 3 0 <> 0) by discriminate.
  assert (Hlen : unpack_H (slice data 3 5) = Ok 2) by reflexivity.
  repeat (split; [assumption|]).
  destruct (translation_lookup Trk.title_ascii Trk.decode_cp857 data 0 0 0 3 0 H0 H1 H2)
    as [_ [Hread _]].
  destruct (Hread 2 Hoff Hlen) as [_ Hstring].
  rewrite Hstring by discriminate. reflexivity.
Defined.

Lemma ApplyModifications_frame_ad :
  Tur.ApplyModifications [x0f; x59; x02; x00] (lit "ab") (lit "ad")
  = (lit "ab", lit "at")
  /\ (S 0 < List.length (lit "ad"))%nat
  /\ nth_error (devoice_last (lit "ad")) 0 = nth_error (lit "ad") 0.
Proof.
  destruct (ApplyModifications_frame [x0f; x59; x02; x00] (lit "ab") (lit "ad"))
    as [Heq [_ [_ [Hinit _]]]].
  assert (Hi : (S 0 < List.length (lit "ad"))%nat) by (vm_compute; constructor).
  split; [rewrite Heq; reflexivity|]. split; [exact Hi|].
  exact (Hinit 0%nat Hi).
Defined.

Example output_of_one_entry :
  output_lines [] 0 [[x00; x08; x00; x00]] [[x0f; x59; x02; x00]]
    (entry_slots [(lit "ab", 1)] 0)
  = Ok [lit "00    08 00    " ++ lit "aba"].
Proof. reflexivity. Qed.

Lemma entries_appended_count_sample :
  let section4 := [[x00; x08; x00; x00]; [x00; x08; x01; x00]; [x00; x10; x00; x04]] in
  let section6 := [[x00; x00; x00; x00]] in
  weakly_increasing [0; 1; 1; 3]
  /\ Tur.make_prefixes (Z.to_nat (len [0; 1; 1; 3] - 1)) 32 [0; 1; 1; 3] 0
     = Ok [(lit "aa", 1); (lit "ab", 0); (lit "ac", 2)]
  /\ Tur.ReadDictionaryEntries [] [] 0 [(lit "aa", 1); (lit "ab", 0); (lit "ac", 2)]
       section4 section6
     = Ok [lit "00    08 00    aaa"; lit "00    08 00    acp"; lit "00    10 00    acat"]
  /\ len [lit "00    08 00    aaa"; lit "00    08 00    acp"; lit "00    10 00    acat"]
     = len (@nil str) + sum (entry_counts [0; 1; 1; 3]).
Proof.
  intros section4 section6.
  assert (Hinc : weakly_increasing [0; 1; 1; 3]) by (cbn; lia).
  assert (Hp : Tur.make_prefixes (Z.to_nat (len [0; 1; 1; 3] - 1)) 32 [0; 1; 1; 3] 0
               = Ok [(lit "aa", 1); (lit "ab", 0); (lit "ac", 2)]) by reflexivity.
  assert (Hread : Tur.ReadDictionaryEntries [] [] 0
                    [(lit "aa", 1); (lit "ab", 0); (lit "ac", 2)] section4 section6
                  = Ok [lit "00    08 00    aaa"; lit "00    08 00    acp";
                        lit "00    10 00    acat"]) by reflexivity.
  split; [exact Hinc|]. split; [exact Hp|]. split; [exact Hread|].
  destruct (entries_appended_count [] [] 0 32 [0; 1; 1; 3]
              [(lit "aa", 1); (lit "ab", 0); (lit "ac", 2)] section4 section6 Hinc Hp)
    as [_ [_ Hcount]].
  exact (Hcount _ Hread).
Defined.

Lemma truncated_tables_abort_sample :
  let data := [x4d; x47; x32; x1a; x00; x00; x01; x00] ++ repeat x00 2120 in
  len (@nil byte) < 2128
  /\ Tur.Import [] [] = Raise StructError
  /\ Tur.read_words 4 data 4 = Ok ([0; 1; 0; 0], 12)
  /\ index [0; 1; 0; 0] 1 = Ok 1
  /\ 2128 <= len data < 2128 + 14 * (1 - 1) + 3
  /\ Tur.Import [] data = Raise StructError
  /\ len [x00; x00; x00] < 2031
  /\ Trk.ReadFile Trk.title_ascii Trk.decode_cp857 [x00; x00; x00]
     = Some (Raise StructError).
Proof.
  intros data.
  assert (Hempty : len (@nil byte) < 2128) by reflexivity.
  assert (Hheader : Tur.read_words 4 data 4 = Ok ([0; 1; 0; 0], 12))
    by (vm_compute; reflexivity).
  assert (Hheader1 : index [0; 1; 0; 0] 1 = Ok 1) by reflexivity.
  assert (Hcut : 2128 <= len data < 2128 + 14 * (1 - 1) + 3)
    by (vm_compute; split; congruence).
  assert (Hmap : len [x00; x00; x00] < 2031) by reflexivity.
  split; [exact Hempty|].
  split; [exact (proj1 (truncated_tables_abort [] []) Hempty)|].
  split; [exact Hheader|]. split; [exact Hheader1|]. split; [exact Hcut|].
  split; [exact (proj1 (proj2 (truncated_tables_abort [] data))
                   _ _ _ Hheader Hheader1 Hcut)|].
  split; [exact Hmap|].
  exact (proj2 (proj2 (truncated_tables_abort [] [x00; x00; x00]))
           Trk.title_ascii Trk.decode_cp857 Hmap).
Defined.

(** * Where the specification and the code part *)

(** The line written for the one entry of the sample container is not
    its headword "aaa": the debug column comes first. *)
Lemma output_line_is_not_the_headword :
  Tur.main Samples.tur_container = Ok (lit "00    08 00    aaa" ++ [10])
  /\ headword Samples.tur_container 2132 [[x00; x08; x00; x00]]
       [[x00; x00; x00; x00]] 0 (lit "aa")
     = Ok (lit "aaa")
  /\ Tur.main Samples.tur_container <> Ok (lit "aaa" ++ [10]).
Proof.
  split; [vm_compute; reflexivity|].
  split; [vm_compute; reflexivity|].
  vm_compute. discriminate.
Qed.

(** A container under a wrong magic value and a container whose declared
    sections 4, 5 and 6 run past its end are both decoded without an
    error. *)
Lemma unchecked_magic_and_overrun :
  firstn 4 Samples.tur_wrong_magic <> [x4d; x47; x32; x1a]
  /\ Tur.main Samples.tur_wrong_magic = Ok (lit "00    08 00    aaa" ++ [10])
  /\ Tur.read_words 4 Samples.tur_overrun 4 = Ok ([2; 0; 0xFFFF; 0x100], 12)
  /\ len Samples.tur_overrun < 2128 + 4 * 2 + 0xFFFF + 4 * 0x100
  /\ Tur.main Samples.tur_overrun = Ok (lit "00    08 00    aaa" ++ [10]).
Proof.
  split; [vm_compute; discriminate|].
  split; [vm_compute; reflexivity|].
  split; [vm_compute; reflexivity|].
  split; [vm_compute; reflexivity|].
  vm_compute. reflexivity.
Qed.

(** * Further properties of the Instruction Decoder *)

Lemma testbit_of_quotient (c n q : Z) :
  0 <= n -> 2 ^ n * q <= c < 2 ^ n * (q + 1) -> Z.testbit c n = Z.odd q.
Proof.
  intros Hn Hc. rewrite Z.testbit_odd, Z.shiftr_div_pow2 by assumption.
  f_equal. symmetry. apply (Z.div_unique c (2 ^ n) q (c - 2 ^ n * q)); lia.
Qed.

Lemma low_nibble (c q : Z) : 16 * q <= c < 16 * (q + 1) -> c mod 16 = c - 16 * q.
Proof.
  intros Hc. symmetry. apply (Z.mod_unique c 16 q (c - 16 * q)); lia.
Qed.

Lemma suffixes_length : len Trk.suffixes = 195.
Proof. reflexivity. Qed.

Section BitFields.

Variable title : str -> str.

Ltac expand_start Hp :=
  unfold Trk.ExpandMorpheme;
  rewrite (chr_ok _ Hp), chr_second_letter; cbn [bind].

(** X1. Every recognized instruction code other than 0x12 acts as a bit
    field: bit 5 capitalizes the prefix, the low four bits give the
    number of characters taken from the previous word, and bit 7
    appends the suffix of the table at suffix_index. *)
Theorem ExpandMorpheme_bit_fields
    (prefix_index : Z) (morpheme previous_word : str) (c suffix_index : Z) :
  in_chr_range (Trk.ord_a + prefix_index / 26) ->
  recognized c -> c <> 0x12 ->
  Trk.ExpandMorpheme title prefix_index morpheme previous_word c suffix_index
  = (suffix <- (if Z.testbit c 7 then index Trk.suffixes suffix_index else Ok []) ;;
     Ok ((if Z.testbit c 5 then title (two_letters prefix_index)
          else two_letters prefix_index)
         ++ firstn (Z.to_nat (c mod 16)) previous_word ++ morpheme ++ suffix)).
Proof.
  intros Hp Hrec Hnot. unfold recognized in Hrec.
  destruct Hrec as [->|[->|[->|[Hc|[Hc|[->|[->|[Hc|Hc]]]]]]]].
  - expand_start Hp. cbn. rewrite app_nil_r. reflexivity.
  - congruence.
  - expand_start Hp. cbn. rewrite app_nil_r. reflexivity.
  - rewrite (testbit_of_quotient c 7 0), (testbit_of_quotient c 5 2) by lia.
    rewrite (low_nibble c 4) by lia. cbn [Z.odd bind].
    expand_start Hp. decide_tests. cbn [orb andb bind].
    rewrite slice_to_firstn by lia. rewrite app_nil_r. reflexivity.
  - rewrite (testbit_of_quotient c 7 0), (testbit_of_quotient c 5 3) by lia.
    rewrite (low_nibble c 6) by lia. cbn [Z.odd bind].
    expand_start Hp. decide_tests. cbn [orb andb bind].
    rewrite slice_to_firstn by lia. rewrite app_nil_r. reflexivity.
  - expand_start Hp. cbn -[index Trk.suffixes].
    destruct (index Trk.suffixes suffix_index); reflexivity.
  - expand_start Hp. cbn -[index Trk.suffixes].
    destruct (index Trk.suffixes suffix_index); reflexivity.
  - rewrite (testbit_of_quotient c 7 1), (testbit_of_quotient c 5 6) by lia.
    rewrite (low_nibble c 12) by lia. cbn [Z.odd].
    expand_start Hp. decide_tests. cbn [orb andb].
    destruct (index Trk.suffixes suffix_index); [|reflexivity].
    cbn [bind]. rewrite slice_to_firstn by lia. reflexivity.
  - rewrite (testbit_of_quotient c 7 1), (testbit_of_quotient c 5 7) by lia.
    rewrite (low_nibble c 14) by lia. cbn [Z.odd].
    expand_start Hp. decide_tests. cbn [orb andb].
    destruct (index Trk.suffixes suffix_index); [|reflexivity].
    cbn [bind]. rewrite slice_to_firstn by lia. reflexivity.
Qed.

(** X2. The suffix table has 195 entries.  An instruction that attaches
    a suffix raises IndexError when its suffix byte is 195 or more, and
    otherwise ends the headword with the entry of the table; an
    instruction that attaches none never reads the table and never
    raises. *)
Theorem ExpandMorpheme_suffix_index
    (prefix_index : Z) (morpheme previous_word : str) (c suffix_index : Z) :
  in_chr_range (Trk.ord_a + prefix_index / 26) ->
  (attaches_suffix c -> 195 <= suffix_index ->
     Trk.ExpandMorpheme title prefix_index morpheme previous_word c suffix_index
     = Raise IndexError)
  /\ (attaches_suffix c -> 0 <= suffix_index < 195 ->
        exists word,
          Trk.ExpandMorpheme title prefix_index morpheme previous_word c suffix_index
          = Ok (word ++ nth (Z.to_nat suffix_index) Trk.suffixes []))
  /\ (~ attaches_suffix c ->
        exists word,
          forall suffix_index',
            Trk.ExpandMorpheme title prefix_index morpheme previous_word c suffix_index'
            = Ok word).
Proof.
  intros Hp. split; [|split].
  - intros Hc Hbig.
    assert (Hidx : index Trk.suffixes suffix_index = Raise IndexError)
      by (apply index_out_of_range; rewrite suffixes_length; lia).
    unfold attaches_suffix in Hc. expand_start Hp.
    decide_tests; cbn [orb andb]; rewrite Hidx; reflexivity.
  - intros Hc Hin.
    assert (Hidx : index Trk.suffixes suffix_index
                   = Ok (nth (Z.to_nat suffix_index) Trk.suffixes [])).
    { rewrite index_nonneg by lia.
      destruct (nth_error Trk.suffixes (Z.to_nat suffix_index)) as [x|] eqn:E.
      - rewrite (nth_error_nth _ _ _ E). reflexivity.
      - apply nth_error_None in E. pose proof suffixes_length as Hl.
        unfold len in Hl. lia. }
    unfold attaches_suffix in Hc. expand_start Hp.
    decide_tests; cbn [orb andb]; rewrite Hidx; cbn [bind];
      eexists; rewrite ?app_assoc; reflexivity.
  - intros Hc. unfold attaches_suffix in Hc. expand_start Hp.
    decide_tests; cbn [orb andb bind]; eexists; intros; reflexivity.
Qed.

End BitFields.

(** * Further properties of the English-Turkish reader *)

Lemma byte_val_FF (b : byte) : byte_val b = 0xFF <-> b = xff.
Proof.
  split; [|intros ->; reflexivity].
  intros H. unfold byte_val in H.
  assert (HN : Byte.to_N b = 255%N) by lia.
  pose proof (Byte.of_to_N b) as Hb. rewrite HN in Hb.
  change (Byte.of_N 255) with (Some xff) in Hb. congruence.
Qed.

Lemma scan_terminator_shift (rest : bytes) (k : Z) :
  Trk.scan_terminator rest k
  = (n <- Trk.scan_terminator rest 0 ;; Ok (k + n)).
Proof.
  revert k. induction rest as [|b rest IH]; intros k; cbn [Trk.scan_terminator].
  - reflexivity.
  - destruct (byte_val b =? 0xFF).
    + cbn [bind]. f_equal. lia.
    + rewrite (IH (k + 1)), (IH (0 + 1)).
      destruct (Trk.scan_terminator rest 0); cbn [bind]; [f_equal; lia | reflexivity].
Qed.

(** X3. The scan for the end of a morpheme stops at the first byte 0xFF:
    on a buffer that starts with bytes other than 0xFF followed by 0xFF it
    returns the number of those bytes, whatever follows; on a buffer
    without a byte 0xFF it raises IndexError. *)
Theorem scan_terminator_first_FF (morpheme rest : bytes) :
  Forall (fun b => b <> xff) morpheme ->
  Trk.scan_terminator (morpheme ++ xff :: rest) 0 = Ok (len morpheme)
  /\ Trk.scan_terminator morpheme 0 = Raise IndexError.
Proof.
  induction 1 as [|b morpheme Hb Hrest [IHok IHraise]].
  - split; reflexivity.
  - assert (Hne : (byte_val b =? 0xFF) = false).
    { apply Z.eqb_neq. intros E. apply byte_val_FF in E. contradiction. }
    cbn [app Trk.scan_terminator]. rewrite Hne.
    rewrite !(scan_terminator_shift _ (0 + 1)), IHok, IHraise. cbn [bind].
    split; [|reflexivity]. f_equal. unfold len. cbn [List.length]. lia.
Qed.

Lemma scan_terminator_found (rest : bytes) (k n : Z) :
  Trk.scan_terminator rest k = Ok n ->
  nth_error rest (Z.to_nat (n - k)) = Some xff.
Proof.
  revert k. induction rest as [|b rest IH]; intros k; cbn [Trk.scan_terminator];
    [discriminate|].
  destruct (Z.eqb_spec (byte_val b) 0xFF) as [E|E].
  - intros H. inversion H. subst. rewrite Z.sub_diag. apply byte_val_FF in E.
    subst. reflexivity.
  - intros H. pose proof (scan_terminator_bounds _ _ _ H) as Hb.
    apply IH in H. replace (Z.to_nat (n - k)) with (S (Z.to_nat (n - (k + 1)))) by lia.
    exact H.
Qed.

Section Reader.

Variable title : str -> str.
Variable decode : bytes -> result str.

(** X4. An entry that is read has the layout the loop assumes: the
    instruction byte, a suffix byte when the instruction is 0x80 or more,
    the morpheme, the byte 0xFF and the three bytes of the offset; the
    new position is just after these, inside the buffer, so that an entry
    takes at least five bytes. *)
Theorem read_entry_layout (i : Z) (data : bytes) (base_offset pos : Z)
    (previous_word : str) (pos' : Z) (previous_word' : str) (entry : str * str) :
  0 <= pos ->
  Trk.read_entry title decode i data base_offset pos previous_word
  = Ok (pos', previous_word', entry) ->
  exists instruction en_len,
    index_b data pos = Ok instruction
    /\ 0 <= en_len
    /\ pos' = pos + (if 0x80 <=? instruction then 2 else 1) + en_len + 4
    /\ index_b data (pos' - 4) = Ok 0xFF
    /\ pos' <= len data.
Proof.
  intros Hpos Hentry.
  pose proof (read_entry_advances title decode _ _ _ _ _ _ _ _ Hpos Hentry) as Hadv.
  unfold Trk.read_entry in Hentry.
  destruct (index_b data pos) as [instruction|] eqn:Hi; [|discriminate].
  cbn [bind] in Hentry.
  destruct (if 0x80 <=? instruction
            then suffix_index <- index_b data (pos + 1) ;; Ok (suffix_index, pos + 1 + 1)
            else Ok (0, pos + 1)) as [[suffix_index p1]|] eqn:Hs; [|discriminate].
  assert (Hp1 : p1 = pos + (if 0x80 <=? instruction then 2 else 1)).
  { destruct (0x80 <=? instruction).
    - destruct (index_b data (pos + 1)); [|discriminate].
      cbn [bind] in Hs. inversion Hs. lia.
    - inversion Hs. lia. }
  cbn [bind] in Hentry.
  destruct (Trk.scan_terminator (slice_from data p1) 0) as [en_len|] eqn:Hscan;
    [|discriminate].
  pose proof (scan_terminator_bounds _ _ _ Hscan) as Hbound.
  apply scan_terminator_found in Hscan. rewrite Z.sub_0_r in Hscan.
  cbn [bind] in Hentry.
  destruct (decode (slice data p1 (p1 + en_len))) as [morpheme|]; [|discriminate].
  cbn [bind] in Hentry.
  destruct (Trk.ExpandMorpheme title i morpheme previous_word instruction suffix_index)
    as [word|]; [|discriminate].
  cbn [bind] in Hentry.
  destruct (Trk.read_turkish decode data base_offset (p1 + en_len + 1))
    as [[t p2]|] eqn:Ht; [|discriminate].
  cbn [bind] in Hentry. inversion Hentry. subst pos' previous_word' entry. clear Hentry.
  assert (Hp2 : p2 = p1 + en_len + 1 + 3).
  { unfold Trk.read_turkish in Ht.
    destruct (index_b data (p1 + en_len + 1 + 1)) as [b1|]; [|discriminate].
    cbn [bind] in Ht.
    destruct (index_b data (p1 + en_len + 1 + 2)) as [b2|]; [|discriminate].
    cbn [bind] in Ht.
    destruct (index_b data (p1 + en_len + 1)) as [b0|]; [|discriminate].
    cbn [bind] in Ht.
    destruct (0 <? _) in Ht; [|inversion Ht; reflexivity].
    destruct (unpack_H _) as [tr_len|] in Ht; [|discriminate].
    cbn [bind] in Ht.
    destruct (0 <? tr_len) in Ht; [|inversion Ht; reflexivity].
    destruct (decode _) in Ht; [|discriminate].
    cbn [bind] in Ht. inversion Ht. reflexivity. }
  exists instruction, en_len.
  split; [reflexivity|]. split; [lia|]. split; [lia|]. split; [|lia].
  assert (Hp1pos : 0 <= p1) by (destruct (0x80 <=? instruction); lia).
  rewrite slice_from_skipn in Hscan by lia.
  rewrite nth_error_skipn in Hscan.
  unfold index_b. rewrite index_nonneg by lia.
  replace (Z.to_nat (p2 - 4)) with (Z.to_nat p1 + Z.to_nat en_len)%nat by lia.
  rewrite Hscan. reflexivity.
Qed.

(** X5. ReadFile comes to an end on every buffer: it returns the text or
    raises, and the loop over the entries never needs more turns than
    the buffer has bytes. *)
Theorem ReadFile_always_returns (data : bytes) :
  exists r, Trk.ReadFile title decode data = Some r.
Proof.
  pose proof (ReadFile_terminates title decode data) as H.
  destruct (Trk.ReadFile title decode data) as [r|]; [eauto | congruence].
Qed.

(** X6. The offset map is read exactly when the buffer holds it: from a
    position with 3 n bytes left the n offsets are returned with the
    position moved by 3 n, each offset below 2^24; with fewer bytes the
    read raises struct.error. *)
Theorem read_offsets_fits (data : bytes) (n : nat) (pos : Z) :
  0 <= pos ->
  (pos + 3 * Z.of_nat n <= len data ->
     exists offsets,
       Trk.read_offsets n data pos = Ok (offsets, pos + 3 * Z.of_nat n)
       /\ List.length offsets = n
       /\ Forall (fun offset => 0 <= offset < 2 ^ 24) offsets)
  /\ ((0 < n)%nat -> len data < pos + 3 * Z.of_nat n ->
        Trk.read_offsets n data pos = Raise StructError).
Proof.
  intros Hpos. split.
  - revert pos Hpos. induction n as [|n IH]; intros pos Hpos Hfit.
    + exists []. cbn [Trk.read_offsets].
      split; [f_equal; f_equal; lia|]. split; [reflexivity | constructor].
    + destruct (IH (pos + 3)) as [rest [Hrest [Hlen Hall]]]; [lia..|].
      assert (Hslice : len (slice data pos (pos + 3)) = 3) by (apply slice_exact; lia).
      destruct (slice data pos (pos + 3)) as [|b0 [|b1 [|b2 [|b3 l]]]] eqn:E;
        unfold len in Hslice; cbn [List.length] in Hslice; try lia.
      exists ((byte_val b0 + 256 * byte_val b1 + 65536 * byte_val b2
               + 16777216 * byte_val x00) :: rest).
      cbn [Trk.read_offsets]. rewrite E. cbn [app unpack_L bind].
      rewrite Hrest. cbn [bind].
      split; [f_equal; f_equal; lia|].
      split; [cbn [List.length]; congruence|].
      constructor; [|exact Hall].
      pose proof (byte_val_range b0). pose proof (byte_val_range b1).
      pose proof (byte_val_range b2). change (byte_val x00) with 0.
      change (2 ^ 24) with 16777216. lia.
  - intros Hn Hshort. apply read_offsets_short; lia.
Qed.

(** X7. A translation whose offset is not zero and points so far that the
    two bytes of the length are not both in the buffer aborts the read
    with struct.error; an offset field cut by the end of the buffer
    aborts it with IndexError. *)
Theorem read_turkish_out_of_buffer (data : bytes) (base_offset pos : Z) :
  0 <= pos -> 0 <= base_offset ->
  (forall b0 b1 b2,
     index_b data pos = Ok b0 ->
     index_b data (pos + 1) = Ok b1 ->
     index_b data (pos + 2) = Ok b2 ->
     middle_endian b0 b1 b2 <> 0 ->
     len data < base_offset + middle_endian b0 b1 b2 + 2 ->
     Trk.read_turkish decode data base_offset pos = Raise StructError)
  /\ (len data < pos + 3 ->
        Trk.read_turkish decode data base_offset pos = Raise IndexError).
Proof.
  intros Hpos Hbase. split.
  - intros b0 b1 b2 H0 H1 H2 Hnz Hfar.
    pose proof (index_b_range _ _ _ H0). pose proof (index_b_range _ _ _ H1).
    pose proof (index_b_range _ _ _ H2).
    unfold Trk.read_turkish. rewrite H0, H1, H2. cbn [bind].
    rewrite tr_offset_middle_endian by assumption.
    assert (0 <= middle_endian b0 b1 b2) by (unfold middle_endian; lia).
    destruct (Z.ltb_spec 0 (middle_endian b0 b1 b2)); [|lia].
    rewrite unpack_H_short; [reflexivity|].
    pose proof (slice_cut data (base_offset + middle_endian b0 b1 b2) 2). lia.
  - intros Hshort. unfold Trk.read_turkish, index_b.
    destruct (Z.lt_ge_cases (pos + 1) (len data)) as [H1|H1].
    + destruct (index_in_range data (pos + 1)) as [x Hx]; [lia|].
      rewrite Hx. cbn [bind].
      rewrite (index_out_of_range data (pos + 2)) by lia. reflexivity.
    + rewrite (index_out_of_range data (pos + 1)) by lia. reflexivity.
Qed.

End Reader.

(** X8. A line of the English-Turkish output puts the translation at
    column 30 when the headword has at most 30 characters; a longer
    headword is followed by its translation without any space.  The line
    ends with a newline. *)
Theorem export_line_columns (english turkish : str) :
  (len english <= 30 ->
     firstn (List.length english) (Trk.export_line (english, turkish)) = english
     /\ skipn 30 (Trk.export_line (english, turkish)) = turkish ++ [10]
     /\ Forall (fun c => c = 32)
          (firstn (30 - List.length english)
             (skipn (List.length english) (Trk.export_line (english, turkish)))))
  /\ (30 <= len english ->
        Trk.export_line (english, turkish) = english ++ turkish ++ [10]).
Proof.
  unfold Trk.export_line, len. unfold str, char in *. split.
  - intros Hshort.
    set (pad := repeat 32 (Z.to_nat (30 - Z.of_nat (List.length english)))).
    assert (Hpad : List.length pad = (30 - List.length english)%nat)
      by (unfold pad; rewrite repeat_length; lia).
    split; [|split].
    + rewrite firstn_app, Nat.sub_diag, firstn_all. cbn [firstn]. apply app_nil_r.
    + assert (Hfull : List.length (english ++ pad) = 30%nat)
        by (rewrite length_app; lia).
      rewrite app_assoc, skipn_app, Hfull.
      rewrite skipn_all2 by lia. reflexivity.
    + rewrite skipn_app, skipn_all, Nat.sub_diag. cbn [skipn app].
      rewrite firstn_app, <- Hpad, firstn_all, Nat.sub_diag. cbn [firstn].
      rewrite app_nil_r. unfold pad. rewrite Forall_forall.
      intros c Hc. apply repeat_spec in Hc. exact Hc.
  - intros Hlong. replace (Z.to_nat _) with 0%nat by lia. reflexivity.
Qed.

(** * Further properties of the Suffix Resolver *)

Lemma index_raises {A : Type} (l : list A) (i : Z) (e : exn) :
  index l i = Raise e -> e = IndexError.
Proof.
  unfold index. destruct (0 <=? _); [|congruence].
  destruct (nth_error _ _); congruence.
Qed.

Lemma index_b_raises (data : bytes) (i : Z) (e : exn) :
  index_b data i = Raise e -> e = IndexError.
Proof.
  unfold index_b. destruct (index data i) eqn:E; cbn [bind]; [discriminate|].
  intros H. inversion H. subst. apply (index_raises _ _ _ E).
Qed.

Lemma index_In {A : Type} (l : list A) (i : Z) (x : A) : index l i = Ok x -> In x l.
Proof.
  unfold index. destruct (0 <=? _); [|discriminate].
  destruct (nth_error _ _) eqn:E; [|discriminate].
  intros H. inversion H. subst. apply (nth_error_In _ _ E).
Qed.

Lemma GetSuffixReodered_permutation (suffix : str) (value : Z) (suffix' : str) :
  Tur.GetSuffixReodered suffix value = Ok suffix' -> Permutation suffix suffix'.
Proof.
  pose proof (Z.mod_pos_bound (value - 0xb8) 0x18) as Hmod.
  destruct suffix as [|x l].
  - unfold Tur.GetSuffixReodered.
    change (index (@nil char) (-1)) with (@Raise char IndexError).
    change (index (@nil char) 0) with (@Raise char IndexError).
    decide_tests; cbn [andb bind rev]; intros Hre; inversion Hre; constructor.
  - destruct (Z.lt_ge_cases value 0xb8) as [Hlow|Hhigh].
    { rewrite reorder_identity by assumption. intros Hre. inversion Hre. reflexivity. }
    destruct (Z.lt_ge_cases ((value - 0xb8) mod 0x18) 0x08) as [H1|H1].
    { rewrite reorder_rotate_right by (try discriminate; lia).
      intros Hre. inversion Hre.
      rewrite (app_removelast_last 0 (l := x :: l)) at 1 by discriminate.
      apply Permutation_sym, Permutation_cons_append. }
    destruct (Z.lt_ge_cases ((value - 0xb8) mod 0x18) 0x10) as [H2|H2].
    { rewrite reorder_rotate_left by lia. intros Hre. inversion Hre.
      apply Permutation_cons_append. }
    rewrite reorder_reverse by lia. intros Hre. inversion Hre. apply Permutation_rev.
Qed.

Lemma GetSuffixReodered_nonempty (suffix : str) (value : Z) :
  suffix <> [] -> exists suffix', Tur.GetSuffixReodered suffix value = Ok suffix'.
Proof.
  pose proof (Z.mod_pos_bound (value - 0xb8) 0x18) as Hmod.
  intros Hne. destruct suffix as [|x l]; [congruence|].
  destruct (Z.lt_ge_cases value 0xb8) as [Hlow|Hhigh].
  { rewrite reorder_identity by assumption. eauto. }
  destruct (Z.lt_ge_cases ((value - 0xb8) mod 0x18) 0x08) as [H1|H1].
  { rewrite reorder_rotate_right by (try discriminate; lia). eauto. }
  destruct (Z.lt_ge_cases ((value - 0xb8) mod 0x18) 0x10) as [H2|H2].
  { rewrite reorder_rotate_left by lia. eauto. }
  rewrite reorder_reverse by lia. eauto.
Qed.

(** X9. GetSuffixReodered only moves characters: its result is a
    permutation of the suffix.  It returns on every non-empty suffix; on
    the empty suffix the two rotations raise IndexError. *)
Theorem reorder_is_permutation (suffix : str) (value : Z) :
  (forall suffix', Tur.GetSuffixReodered suffix value = Ok suffix' ->
     Permutation suffix suffix')
  /\ (suffix <> [] -> exists suffix', Tur.GetSuffixReodered suffix value = Ok suffix')
  /\ (0xb8 <= value -> (value - 0xb8) mod 0x18 < 0x10 ->
      Tur.GetSuffixReodered [] value = Raise IndexError).
Proof.
  split; [apply GetSuffixReodered_permutation|].
  split; [apply GetSuffixReodered_nonempty|].
  intros Hhigh Hrot. unfold Tur.GetSuffixReodered.
  pose proof (Z.mod_pos_bound (value - 0xb8) 0x18) as Hmod.
  change (index (@nil char) (-1)) with (@Raise char IndexError).
  change (index (@nil char) 0) with (@Raise char IndexError).
  decide_tests; cbn [andb bind]; reflexivity.
Qed.

Lemma direct_letters_spec (n : nat) (instructions : bytes) (i : Z) (suffix suffix' : str) :
  Tur.direct_letters n instructions i suffix = Ok suffix' ->
  exists letters,
    suffix' = suffix ++ letters /\ List.length letters = n
    /\ Forall (fun c => In c Tur.alphabet) letters.
Proof.
  revert i suffix. induction n as [|n IH]; intros i suffix; cbn [Tur.direct_letters].
  - intros H. inversion H. exists []. rewrite app_nil_r. repeat split. constructor.
  - destruct (index_b instructions (2 + i)) as [k|]; [|discriminate]. cbn [bind].
    destruct (index Tur.alphabet k) as [c|] eqn:Hc; [|discriminate]. cbn [bind].
    intros H. apply IH in H. destruct H as [letters [-> [Hlen Hall]]].
    exists (c :: letters). rewrite <- app_assoc. split; [reflexivity|].
    split; [cbn [List.length]; congruence|].
    constructor; [apply (index_In _ _ _ Hc) | exact Hall].
Qed.

Lemma blob_letters_spec (n : nat) (data : bytes) (pos i : Z) (suffix suffix' : str) :
  Tur.blob_letters n data pos i suffix = Ok suffix' ->
  exists letters,
    suffix' = suffix ++ letters /\ List.length letters = n
    /\ Forall (fun c => In c Tur.alphabet) letters.
Proof.
  revert i suffix. induction n as [|n IH]; intros i suffix; cbn [Tur.blob_letters].
  - intros H. inversion H. exists []. rewrite app_nil_r. repeat split. constructor.
  - destruct (index_b data (pos + i)) as [k|]; [|discriminate]. cbn [bind].
    destruct (index Tur.alphabet k) as [c|] eqn:Hc; [|discriminate]. cbn [bind].
    intros H. apply IH in H. destruct H as [letters [-> [Hlen Hall]]].
    exists (c :: letters). rewrite <- app_assoc. split; [reflexivity|].
    split; [cbn [List.length]; congruence|].
    constructor; [apply (index_In _ _ _ Hc) | exact Hall].
Qed.

Lemma direct_letters_raises (n : nat) (instructions : bytes) (i : Z) (suffix : str)
    (e : exn) :
  Tur.direct_letters n instructions i suffix = Raise e -> e = IndexError.
Proof.
  revert i suffix. induction n as [|n IH]; intros i suffix; cbn [Tur.direct_letters];
    [discriminate|].
  destruct (index_b instructions (2 + i)) as [k|] eqn:Hk; cbn [bind];
    [|intros H; inversion H; subst; apply (index_b_raises _ _ _ Hk)].
  destruct (index Tur.alphabet k) as [c|] eqn:Hc; cbn [bind];
    [|intros H; inversion H; subst; apply (index_raises _ _ _ Hc)].
  apply IH.
Qed.

Lemma blob_letters_raises (n : nat) (data : bytes) (pos i : Z) (suffix : str) (e : exn) :
  Tur.blob_letters n data pos i suffix = Raise e -> e = IndexError.
Proof.
  revert i suffix. induction n as [|n IH]; intros i suffix; cbn [Tur.blob_letters];
    [discriminate|].
  destruct (index_b data (pos + i)) as [k|] eqn:Hk; cbn [bind];
    [|intros H; inversion H; subst; apply (index_b_raises _ _ _ Hk)].
  destruct (index Tur.alphabet k) as [c|] eqn:Hc; cbn [bind];
    [|intros H; inversion H; subst; apply (index_raises _ _ _ Hc)].
  apply IH.
Qed.

Lemma GetSuffixLength_of_byte (b1 : Z) :
  0 <= b1 < 256 ->
  exists n, Tur.GetSuffixLength b1 = Some n /\ 0 <= n <= 22
            /\ (n <= 2 -> b1 < 0x18) /\ (0xb8 <= b1 -> 3 <= n).
Proof.
  intros Hb. unfold Tur.GetSuffixLength.
  destruct (Z.lt_ge_cases b1 0xb8) as [Hlow|Hhigh].
  - exists (b1 / 8). decide_tests. cbn [andb]. split; [reflexivity|].
    assert (0 <= b1 / 8 <= 22)
      by (split; [apply Z.div_pos; lia | apply Z.lt_succ_r, Z.div_lt_upper_bound; lia]).
    split; [assumption|]. split; [|lia].
    intros Hn. destruct (Z.lt_ge_cases b1 0x18); [assumption|].
    assert (3 <= b1 / 8) by (apply Z.div_le_lower_bound; lia). lia.
  - exists (3 + (b1 - 0xb8) / 0x18). decide_tests. cbn [andb]. split; [reflexivity|].
    assert (0 <= (b1 - 0xb8) / 0x18 < 3)
      by (split; [apply Z.div_pos; lia | apply Z.div_lt_upper_bound; lia]).
    split; [lia|]. split; lia.
Qed.

(** X10. A suffix that GetSuffix resolves has exactly the length its
    selector byte encodes, and every one of its characters is a
    character of the alphabet. *)
Theorem GetSuffix_length (data instructions : bytes) (base_offset : Z) (suffix : str) :
  Tur.GetSuffix data instructions base_offset = Ok suffix ->
  exists b1 n,
    index_b instructions 1 = Ok b1
    /\ Tur.GetSuffixLength b1 = Some n
    /\ len suffix = n
    /\ Forall (fun c => In c Tur.alphabet) suffix.
Proof.
  unfold Tur.GetSuffix.
  destruct (index_b instructions 1) as [b1|] eqn:Hb1; [|discriminate]. cbn [bind].
  destruct (GetSuffixLength_of_byte b1 (index_b_range _ _ _ Hb1)) as [n [Hn [Hrange _]]].
  rewrite Hn. intros H. exists b1, n. split; [reflexivity|]. split; [exact Hn|].
  assert (Hletters : exists letters,
             Tur.GetSuffixReodered letters b1 = Ok suffix
             /\ List.length letters = Z.to_nat n
             /\ Forall (fun c => In c Tur.alphabet) letters).
  { destruct (Z.eqb_spec n 0) as [->|Hnz].
    - exists []. cbn [bind] in H. repeat split; [exact H | constructor].
    - destruct ((1 <=? n) && (n <=? 2)).
      + destruct (Tur.direct_letters (Z.to_nat n) instructions 0 []) as [s|] eqn:Hs;
          [|discriminate].
        cbn [bind] in H. apply direct_letters_spec in Hs.
        destruct Hs as [letters [-> [Hlen Hall]]]. exists letters. auto.
      + destruct (unpack_H (slice instructions 2 4)) as [offset|]; [|discriminate].
        cbn [bind] in H.
        destruct (Tur.blob_letters (Z.to_nat n) data (base_offset + offset) 0 [])
          as [s|] eqn:Hs; [|discriminate].
        cbn [bind] in H. apply blob_letters_spec in Hs.
        destruct Hs as [letters [-> [Hlen Hall]]]. exists letters. auto. }
  destruct Hletters as [letters [Hre [Hlen Hall]]].
  apply GetSuffixReodered_permutation in Hre.
  split.
  - unfold len. rewrite <- (Permutation_length Hre), Hlen. lia.
  - apply (Permutation_Forall Hre Hall).
Qed.

(** X11. On a record of four bytes the only exception GetSuffix can
    raise is IndexError (a letter index outside the alphabet, or a blob
    position outside the buffer): the length is never None, the offset
    is always unpacked and the reordering never meets an empty suffix. *)
Theorem GetSuffix_only_IndexError (data : bytes) (b0 b1 b2 b3 : byte)
    (base_offset : Z) (e : exn) :
  Tur.GetSuffix data [b0; b1; b2; b3] base_offset = Raise e -> e = IndexError.
Proof.
  unfold Tur.GetSuffix.
  change (index_b [b0; b1; b2; b3] 1) with (Ok (byte_val b1)). cbn [bind].
  destruct (GetSuffixLength_of_byte (byte_val b1) (byte_val_range b1))
    as [n [Hn [Hrange [Hshort Hlong]]]].
  rewrite Hn.
  change (slice [b0; b1; b2; b3] 2 4) with [b2; b3]. cbn [unpack_H bind].
  destruct (Z.eqb_spec n 0) as [->|Hnz].
  - cbn [bind]. rewrite reorder_identity by lia. discriminate.
  - destruct (Z.leb_spec 1 n); [|lia]. cbn [andb].
    destruct (Z.leb_spec n 2) as [Hle|Hgt].
    + destruct (Tur.direct_letters (Z.to_nat n) [b0; b1; b2; b3] 0 []) as [s|e'] eqn:Hs.
      * cbn [bind]. rewrite reorder_identity by lia. discriminate.
      * cbn [bind]. intros Hraise. inversion Hraise. subst.
        apply (direct_letters_raises _ _ _ _ _ Hs).
    + destruct (Tur.blob_letters (Z.to_nat n) data
                  (base_offset + (byte_val b2 + 256 * byte_val b3)) 0 []) as [s|e'] eqn:Hs.
      * cbn [bind]. apply blob_letters_spec in Hs.
        destruct Hs as [letters [-> [Hlen _]]]. cbn [app].
        destruct (GetSuffixReodered_nonempty letters (byte_val b1)) as [s' Hs'].
        { destruct letters; [cbn [List.length] in Hlen; lia | discriminate]. }
        rewrite Hs'. discriminate.
      * cbn [bind]. intros Hraise. inversion Hraise. subst.
        apply (blob_letters_raises _ _ _ _ _ _ Hs).
Qed.

(** X12. A suffix of at most two letters (selector byte below 0x18) is
    made of the record alone: the buffer and the base offset are not
    read. *)
Theorem GetSuffix_short_ignores_blob (data data' : bytes) (instructions : bytes)
    (base_offset base_offset' b1 : Z) :
  index_b instructions 1 = Ok b1 -> b1 < 0x18 ->
  Tur.GetSuffix data instructions base_offset
  = Tur.GetSuffix data' instructions base_offset'.
Proof.
  intros Hb1 Hshort. unfold Tur.GetSuffix. rewrite Hb1. cbn [bind].
  pose proof (index_b_range _ _ _ Hb1) as Hrange.
  unfold Tur.GetSuffixLength.
  destruct (Z.leb_spec 0 b1); [|lia]. destruct (Z.ltb_spec b1 0xb8); [|lia].
  cbn [andb].
  assert (Hn : 0 <= b1 / 8 <= 2)
    by (split; [apply Z.div_pos; lia | apply Z.lt_succ_r, Z.div_lt_upper_bound; lia]).
  destruct (Z.eqb_spec (b1 / 8) 0); [reflexivity|].
  destruct (Z.leb_spec 1 (b1 / 8)); [|lia].
  destruct (Z.leb_spec (b1 / 8) 2); [|lia].
  reflexivity.
Qed.

Lemma index_b_at (data : bytes) (k : Z) (b : byte) (rest : bytes) :
  0 <= k -> skipn (Z.to_nat k) data = b :: rest -> index_b data k = Ok (byte_val b).
Proof.
  intros Hk Hskip. unfold index_b. rewrite index_nonneg by assumption.
  replace (nth_error data (Z.to_nat k)) with (nth_error (skipn (Z.to_nat k) data) 0)
    by (rewrite nth_error_skipn; f_equal; lia).
  rewrite Hskip. reflexivity.
Qed.

Lemma skipn_succ {A : Type} (l : list A) (k : nat) (x : A) (rest : list A) :
  skipn k l = x :: rest -> skipn (S k) l = rest.
Proof.
  intros H. replace (S k) with (1 + k)%nat by lia.
  rewrite <- skipn_skipn, H. reflexivity.
Qed.

(** The loop over the blob decodes the [n] bytes at [pos + i] when they
    are in the buffer and all below the size of the alphabet. *)
Lemma blob_letters_ok (n : nat) (data : bytes) (pos i : Z) (suffix : str) :
  0 <= pos + i -> pos + i + Z.of_nat n <= len data ->
  Forall (fun b => byte_val b < 59) (firstn n (skipn (Z.to_nat (pos + i)) data)) ->
  Tur.blob_letters n data pos i suffix
  = Ok (suffix ++ map (fun b => nth (Z.to_nat (byte_val b)) Tur.alphabet 0)
                    (firstn n (skipn (Z.to_nat (pos + i)) data))).
Proof.
  revert i suffix. induction n as [|n IH]; intros i suffix Hpos Hfit Hall.
  - cbn. rewrite app_nil_r. reflexivity.
  - destruct (skipn (Z.to_nat (pos + i)) data) as [|b rest] eqn:Hskip.
    { apply (f_equal (@List.length byte)) in Hskip. rewrite length_skipn in Hskip.
      unfold len in Hfit. cbn [List.length] in Hskip. lia. }
    cbn [firstn] in Hall. inversion Hall as [|? ? Hb Hrest]. subst.
    cbn [Tur.blob_letters]. rewrite (index_b_at _ _ _ _ Hpos Hskip). cbn [bind].
    pose proof (byte_val_range b) as Hbr.
    rewrite index_nonneg by lia.
    destruct (nth_error Tur.alphabet (Z.to_nat (byte_val b))) as [c|] eqn:Hc.
    2:{ apply nth_error_None in Hc. pose proof alphabet_length as Hl.
        unfold len in Hl. lia. }
    cbn [bind]. apply skipn_succ in Hskip.
    replace (S (Z.to_nat (pos + i))) with (Z.to_nat (pos + (i + 1))) in Hskip by lia.
    rewrite IH; [| lia | lia | rewrite Hskip; exact Hrest].
    rewrite Hskip. cbn [firstn map]. rewrite (nth_error_nth _ _ _ Hc).
    rewrite <- app_assoc. reflexivity.
Qed.

Lemma blob_letters_needs_bytes (n : nat) (data : bytes) (pos i : Z) (acc s : str) :
  Tur.blob_letters n data pos i acc = Ok s ->
  0 <= pos + i -> (0 < n)%nat -> pos + i + Z.of_nat n <= len data.
Proof.
  revert i acc. induction n as [|n IH]; intros i acc Hs Hpos Hn; [lia|].
  cbn [Tur.blob_letters] in Hs.
  destruct (index_b data (pos + i)) as [k|] eqn:Hk; [|discriminate].
  apply index_b_ok_range in Hk; [|assumption].
  cbn [bind] in Hs.
  destruct (index Tur.alphabet k) as [c|]; [|discriminate]. cbn [bind] in Hs.
  destruct n as [|n]; [lia|].
  apply IH in Hs; lia.
Qed.

(** X13. A suffix of 3 to 22 letters with a selector below 0xb8 is the
    run of bytes of the buffer at base_offset plus the little-endian
    offset of bytes 2-3, each byte taken as an index into the alphabet;
    a run that ends beyond the buffer raises IndexError. *)
Theorem GetSuffix_blob (data : bytes) (b0 b1 b2 b3 : byte) (base_offset : Z) :
  let n := byte_val b1 / 8 in
  let pos := base_offset + (byte_val b2 + 256 * byte_val b3) in
  0x18 <= byte_val b1 < 0xb8 -> 0 <= base_offset ->
  (pos + n <= len data ->
   Forall (fun b => byte_val b < 59) (slice data pos (pos + n)) ->
   Tur.GetSuffix data [b0; b1; b2; b3] base_offset
   = Ok (map (fun b => nth (Z.to_nat (byte_val b)) Tur.alphabet 0)
           (slice data pos (pos + n))))
  /\ (len data < pos + n ->
      Tur.GetSuffix data [b0; b1; b2; b3] base_offset = Raise IndexError).
Proof.
  intros n pos Hb1 Hbase.
  pose proof (byte_val_range b2) as R2. pose proof (byte_val_range b3) as R3.
  assert (Hn : 3 <= n <= 22).
  { unfold n. split; [apply Z.div_le_lower_bound; lia
                     | apply Z.lt_succ_r, Z.div_lt_upper_bound; lia]. }
  assert (Hunfold : Tur.GetSuffix data [b0; b1; b2; b3] base_offset
                    = (suffix <- Tur.blob_letters (Z.to_nat n) data pos 0 [] ;;
                       Tur.GetSuffixReodered suffix (byte_val b1))).
  { unfold Tur.GetSuffix.
    change (index_b [b0; b1; b2; b3] 1) with (Ok (byte_val b1)). cbn [bind].
    unfold Tur.GetSuffixLength.
    destruct (Z.leb_spec 0 (byte_val b1)); [|lia].
    destruct (Z.ltb_spec (byte_val b1) 0xb8); [|lia]. cbn [andb]. fold n.
    destruct (Z.eqb_spec n 0); [lia|].
    destruct (Z.leb_spec n 2); [lia|]. rewrite andb_false_r.
    reflexivity. }
  rewrite Hunfold. split.
  - intros Hfit Hall. rewrite slice_nonneg in * by lia.
    rewrite !Z.min_l in * by lia.
    replace (pos + n - pos) with n in * by lia.
    rewrite blob_letters_ok; rewrite ?Z.add_0_r; [| lia | lia | exact Hall].
    cbn [bind app]. apply reorder_identity. lia.
  - intros Hcut.
    destruct (Tur.blob_letters (Z.to_nat n) data pos 0 []) as [s|e] eqn:Hs.
    + apply blob_letters_needs_bytes in Hs; lia.
    + cbn [bind]. f_equal. apply (blob_letters_raises _ _ _ _ _ _ Hs).
Qed.

(** * Further properties of the Entry Assembler *)

(** X14. ByteToHex writes a byte as exactly two lower-case hexadecimal
    digits, the high one first. *)
Theorem ByteToHex_two_digits (b : byte) :
  Tur.ByteToHex (byte_val b)
  = [hex_digit (byte_val b / 16); hex_digit (byte_val b mod 16)].
Proof.
  destruct b; vm_compute; reflexivity.
Qed.

Lemma ByteToHex_low (v : Z) : 0 <= v < 8 -> Tur.ByteToHex v = [48; 48 + v].
Proof.
  intros Hv.
  assert (Hcases : v = 0 \/ v = 1 \/ v = 2 \/ v = 3 \/ v = 4 \/ v = 5 \/ v = 6 \/ v = 7)
    by lia.
  repeat (destruct Hcases as [->|Hcases]; [reflexivity|]). subst. reflexivity.
Qed.

Lemma ByteToHex_byte (v : Z) :
  0 <= v < 256 -> Tur.ByteToHex v = [hex_digit (v / 16); hex_digit (v mod 16)].
Proof.
  intros Hv. destruct (Byte.of_N (Z.to_N v)) as [b|] eqn:E.
  - apply Byte.to_of_N in E.
    assert (Hb : byte_val b = v) by (unfold byte_val; rewrite E; lia).
    rewrite <- Hb. destruct b; vm_compute; reflexivity.
  - apply Byte.of_N_None_iff in E. lia.
Qed.

(** X15. The debug column of a record of at least two bytes has 15
    characters and begins with the digit 0: two digits for byte 1 modulo
    8, four spaces, two digits for byte 1, a space, two digits for byte
    0 and four spaces.  A shorter record raises IndexError. *)
Theorem debug_column_width (record : bytes) :
  (forall b0 b1 rest, record = b0 :: b1 :: rest ->
     Tur.debug_column record
     = Ok ([48; 48 + byte_val b1 mod 8] ++ lit "    "
           ++ [hex_digit (byte_val b1 / 16); hex_digit (byte_val b1 mod 16)] ++ lit " "
           ++ [hex_digit (byte_val b0 / 16); hex_digit (byte_val b0 mod 16)]
           ++ lit "    "))
  /\ (forall debug, Tur.debug_column record = Ok debug -> len debug = 15)
  /\ (len record < 2 -> Tur.debug_column record = Raise IndexError).
Proof.
  assert (Hfull : forall b0 b1 rest,
             Tur.debug_column (b0 :: b1 :: rest)
             = Ok ([48; 48 + byte_val b1 mod 8] ++ lit "    "
                   ++ [hex_digit (byte_val b1 / 16); hex_digit (byte_val b1 mod 16)]
                   ++ lit " "
                   ++ [hex_digit (byte_val b0 / 16); hex_digit (byte_val b0 mod 16)]
                   ++ lit "    ")).
  { intros b0 b1 rest. unfold Tur.debug_column.
    change (index_b (b0 :: b1 :: rest) 1) with (Ok (byte_val b1)).
    change (index_b (b0 :: b1 :: rest) 0) with (Ok (byte_val b0)).
    cbn [bind].
    rewrite ByteToHex_low by (apply Z.mod_pos_bound; lia).
    rewrite !ByteToHex_byte by apply byte_val_range. reflexivity. }
  split; [intros b0 b1 rest ->; apply Hfull|]. split.
  - intros debug. destruct record as [|b0 [|b1 rest]].
    + discriminate.
    + discriminate.
    + rewrite Hfull. intros H. inversion H. reflexivity.
  - destruct record as [|b0 [|b1 rest]]; [reflexivity | reflexivity |].
    unfold len. cbn [List.length]. lia.
Qed.

Lemma devoice_not_voiced (c : char) : ~ In (devoice c) voiced.
Proof.
  unfold devoice, voiced.
  repeat match goal with
  | |- context [Z.eqb ?a ?b] => destruct (Z.eqb_spec a b)
  end; cbn [In]; lia.
Qed.

Lemma devoice_fixed (c : char) : ~ In c voiced -> devoice c = c.
Proof.
  unfold devoice, voiced. cbn [In]. intros H.
  repeat match goal with
  | |- context [Z.eqb ?a ?b] => destruct (Z.eqb_spec a b)
  end; try reflexivity; exfalso; apply H; auto 6.
Qed.

Lemma devoice_last_nonempty (suffix : str) :
  suffix <> [] -> devoice_last suffix = removelast suffix ++ [devoice (last suffix 0)].
Proof.
  destruct suffix; [congruence | reflexivity].
Qed.

(** X16. Applying the modification step a second time changes nothing,
    and a modified suffix never ends in one of the voiced consonants b,
    c, d, g, g-breve. *)
Theorem ApplyModifications_idempotent (data data' : bytes) (prefix prefix' suffix : str) :
  let modified := snd (Tur.ApplyModifications data prefix suffix) in
  snd (Tur.ApplyModifications data' prefix' modified) = modified
  /\ ~ In (last modified 0) voiced.
Proof.
  cbn zeta. rewrite !ApplyModifications_eq. cbn [snd].
  destruct suffix as [|x l].
  - split; [reflexivity|]. cbn. lia.
  - rewrite (devoice_last_nonempty (x :: l)) by discriminate.
    set (d := devoice (last (x :: l) 0)). set (init := removelast (x :: l)).
    rewrite devoice_last_nonempty by (destruct init; discriminate).
    rewrite last_last, removelast_last.
    split; [|apply devoice_not_voiced].
    rewrite devoice_fixed by apply devoice_not_voiced. reflexivity.
Qed.

(** * Further properties of the Section Reader *)

Lemma firstn_plus {A : Type} (n m : nat) (l : list A) :
  firstn (n + m) l = firstn n l ++ firstn m (skipn n l).
Proof.
  revert l. induction n as [|n IH]; intros l; [reflexivity|].
  destruct l as [|x l]; [cbn; rewrite firstn_nil; reflexivity|].
  cbn [Nat.add firstn skipn app]. rewrite IH. reflexivity.
Qed.

Lemma slice_split {A : Type} (l : list A) (a b c : Z) :
  0 <= a <= b -> b <= c -> slice l a b ++ slice l b c = slice l a c.
Proof.
  intros Hab Hbc. rewrite !slice_nonneg by lia.
  pose proof (len_nonneg l) as Hl.
  set (a' := Z.min a (len l)). set (b' := Z.min b (len l)). set (c' := Z.min c (len l)).
  assert (Ha : 0 <= a' <= b') by (unfold a', b'; lia).
  assert (Hb : b' <= c') by (unfold b', c'; lia).
  replace (Z.to_nat (c' - a')) with (Z.to_nat (b' - a') + Z.to_nat (c' - b'))%nat by lia.
  rewrite firstn_plus, skipn_skipn.
  replace (Z.to_nat (b' - a') + Z.to_nat a')%nat with (Z.to_nat b') by lia.
  reflexivity.
Qed.

(** X17. Reading n records never fails: it returns n slices and moves
    the position by 4 n.  Put end to end the slices are the bytes
    data[pos : pos + 4 n]; each has at most four bytes, and exactly four
    when the buffer holds all n records. *)
Theorem read_records_slices (n : nat) (data : bytes) (pos : Z) :
  0 <= pos ->
  snd (Tur.read_records n data pos) = pos + 4 * Z.of_nat n
  /\ List.length (fst (Tur.read_records n data pos)) = n
  /\ List.concat (fst (Tur.read_records n data pos))
     = slice data pos (pos + 4 * Z.of_nat n)
  /\ Forall (fun record => len record <= 4) (fst (Tur.read_records n data pos))
  /\ (pos + 4 * Z.of_nat n <= len data ->
      Forall (fun record => len record = 4) (fst (Tur.read_records n data pos))).
Proof.
  revert pos. induction n as [|n IH]; intros pos Hpos.
  - cbn [Tur.read_records fst snd List.concat List.length].
    split; [lia|]. split; [reflexivity|]. split.
    + rewrite slice_nonneg by lia. replace (_ - _) with 0 by lia. reflexivity.
    + split; [constructor | intros _; constructor].
  - cbn [Tur.read_records].
    destruct (IH (pos + 4)) as [Hp [Hl [Hc [Hle Heq]]]]; [lia|].
    destruct (Tur.read_records n data (pos + 4)) as [records pos'].
    cbn [fst snd] in *. cbn [List.concat List.length].
    split; [lia|]. split; [congruence|]. split.
    + rewrite Hc.
      replace (pos + 4 * Z.of_nat (S n)) with (pos + 4 + 4 * Z.of_nat n) by lia.
      apply slice_split; lia.
    + split.
      * constructor; [|exact Hle]. rewrite slice_length by lia.
        pose proof (len_nonneg data). lia.
      * intros Hfit. constructor; [apply slice_exact; lia | apply Heq; lia].
Qed.

Lemma read_words_values (data : bytes) (n : nat) (pos pos' : Z) (values : list Z) :
  0 <= pos ->
  Tur.read_words n data pos = Ok (values, pos') ->
  forall k v, nth_error values k = Some v ->
    exists b0 b1,
      index data (pos + 2 * Z.of_nat k) = Ok b0
      /\ index data (pos + 2 * Z.of_nat k + 1) = Ok b1
      /\ v = byte_val b0 + 256 * byte_val b1.
Proof.
  revert pos values. induction n as [|n IH]; intros pos values Hpos; cbn [Tur.read_words].
  - intros H k v Hk. inversion H. subst. destruct k; discriminate.
  - destruct (Z.lt_ge_cases (len data) (pos + 2)) as [Hshort|Hfit].
    { rewrite unpack_H_short; [discriminate|].
      pose proof (slice_cut data pos 2). lia. }
    assert (Hslice : slice data pos (pos + 2)
                     = firstn 2 (skipn (Z.to_nat pos) data)).
    { rewrite slice_nonneg by lia. rewrite !Z.min_l by lia. f_equal. lia. }
    rewrite Hslice.
    destruct (skipn (Z.to_nat pos) data) as [|b0 [|b1 rest]] eqn:Hskip;
      try (apply (f_equal (@List.length byte)) in Hskip;
           rewrite length_skipn in Hskip; unfold len in Hfit;
           cbn [List.length] in Hskip; lia).
    cbn [firstn unpack_H bind].
    destruct (Tur.read_words n data (pos + 2)) as [[rest' p]|] eqn:Hrest; [|discriminate].
    cbn [bind]. intros H k v Hk. inversion H. subst. clear H.
    destruct k as [|k].
    + cbn [nth_error] in Hk. inversion Hk. subst. exists b0, b1.
      rewrite !index_nonneg by lia.
      replace (nth_error data (Z.to_nat (pos + 2 * Z.of_nat 0)))
        with (nth_error (skipn (Z.to_nat pos) data) 0)
        by (rewrite nth_error_skipn; f_equal; lia).
      replace (nth_error data (Z.to_nat (pos + 2 * Z.of_nat 0 + 1)))
        with (nth_error (skipn (Z.to_nat pos) data) 1)
        by (rewrite nth_error_skipn; f_equal; lia).
      rewrite Hskip. repeat split; reflexivity.
    + cbn [nth_error] in Hk.
      destruct (IH (pos + 2) rest' ltac:(lia) Hrest k v Hk) as [c0 [c1 [H0 [H1 Hv]]]].
      exists c0, c1.
      replace (pos + 2 * Z.of_nat (S k)) with (pos + 2 + 2 * Z.of_nat k) by lia.
      auto.
Qed.

(** X18. A table of n 16-bit values is read exactly when the buffer
    holds its 2 n bytes; the position moves by 2 n and the value of
    rank k is the little-endian number of the bytes at pos + 2 k and
    pos + 2 k + 1.  A shorter buffer raises struct.error. *)
Theorem read_words_little_endian (data : bytes) (n : nat) (pos : Z) :
  0 <= pos ->
  (pos + 2 * Z.of_nat n <= len data ->
     exists values,
       Tur.read_words n data pos = Ok (values, pos + 2 * Z.of_nat n)
       /\ List.length values = n
       /\ (forall k v, nth_error values k = Some v ->
             exists b0 b1,
               index data (pos + 2 * Z.of_nat k) = Ok b0
               /\ index data (pos + 2 * Z.of_nat k + 1) = Ok b1
               /\ v = byte_val b0 + 256 * byte_val b1))
  /\ ((0 < n)%nat -> len data < pos + 2 * Z.of_nat n ->
      Tur.read_words n data pos = Raise StructError).
Proof.
  intros Hpos. split.
  - intros Hfit. destruct (read_words_ok data n pos Hpos Hfit) as [values [Hv Hl]].
    exists values. split; [exact Hv|]. split; [exact Hl|].
    apply (read_words_values _ _ _ _ _ Hpos Hv).
  - intros Hn Hshort. apply read_words_short; assumption.
Qed.

Lemma index_nth (l : list Z) (i : Z) (x : Z) :
  0 <= i -> index l i = Ok x -> x = nth (Z.to_nat i) l 0.
Proof.
  intros Hi. rewrite index_nonneg by assumption.
  destruct (nth_error l (Z.to_nat i)) as [y|] eqn:E; [|discriminate].
  intros H. inversion H. subst. symmetry. apply (nth_error_nth _ _ _ E).
Qed.

Lemma make_prefixes_fst (n : nat) (section2 : list Z) (prefix_index : Z)
    (prefixes : list (str * Z)) :
  0 <= prefix_index ->
  Tur.make_prefixes n 32 section2 prefix_index = Ok prefixes ->
  map fst prefixes = map tur_prefix (range_from prefix_index n).
Proof.
  revert prefix_index prefixes. induction n as [|n IH]; intros idx prefixes Hidx;
    cbn [Tur.make_prefixes range_from map].
  - intros H. inversion H. reflexivity.
  - destruct (index Tur.alphabet (idx / 32)) as [c1|] eqn:H1; [|discriminate].
    destruct (index Tur.alphabet (idx mod 32)) as [c2|] eqn:H2; [|discriminate].
    cbn [bind].
    destruct (index section2 (idx + 1)) as [hi|]; [|discriminate].
    destruct (index section2 idx) as [lo|]; [|discriminate].
    cbn [bind].
    destruct (Tur.make_prefixes n 32 section2 (idx + 1)) as [rest|] eqn:Hrest;
      [|discriminate].
    cbn [bind]. intros H. inversion H. subst. cbn [map fst].
    apply index_nth in H1; [|apply Z.div_pos; lia].
    apply index_nth in H2; [|apply Z.mod_pos_bound; lia].
    rewrite (IH (idx + 1) rest ltac:(lia) Hrest). subst c1 c2. reflexivity.
Qed.

Lemma distinct_NoDup (l : list str) : distinct l = true -> NoDup l.
Proof.
  induction l as [|x l IH]; cbn [distinct]; [constructor|].
  intros H. apply andb_prop in H. destruct H as [Hx Hl].
  constructor; [|apply IH; exact Hl].
  intros Hin. apply negb_true_iff in Hx.
  assert (Hex : existsb (fun y => if list_eq_dec Z.eq_dec x y then true else false) l
                = true).
  { apply existsb_exists. exists x. split; [exact Hin|].
    destruct (list_eq_dec Z.eq_dec x x); congruence. }
  congruence.
Qed.

(** X19. From a table of 1025 offsets the prefix table is always built:
    it lists, in order and whatever the offsets are, the 1024 pairs of
    the first 32 letters of the alphabet, no pair twice, each with the
    difference of its two offsets. *)
Theorem make_prefixes_table (section2 : list Z) :
  len section2 = 1025 ->
  exists prefixes,
    Tur.make_prefixes (Z.to_nat (len section2 - 1)) 32 section2 0 = Ok prefixes
    /\ map fst prefixes = map tur_prefix (range_from 0 1024)
    /\ NoDup (map fst prefixes)
    /\ map snd prefixes = entry_counts section2.
Proof.
  intros Hlen.
  destruct (make_prefixes_ok section2 (Z.to_nat (len section2 - 1)) 0)
    as [prefixes Hp]; [lia..|].
  exists prefixes. split; [exact Hp|].
  pose proof (make_prefixes_all_counts _ _ _ Hp) as Hcounts.
  rewrite Hlen in Hp. change (Z.to_nat (1025 - 1)) with 1024%nat in Hp.
  apply make_prefixes_fst in Hp; [|lia].
  split; [exact Hp|]. split; [|exact Hcounts].
  rewrite Hp. apply distinct_NoDup. vm_compute. reflexivity.
Qed.

(** X20. Import only appends: the entries already in the dictionary are
    kept in front, and what is appended, or the exception raised, is the
    same as for an empty dictionary. *)
Theorem Import_appends (dictionary : list str) (data : bytes) :
  Tur.Import dictionary data
  = (entries <- Tur.Import [] data ;; Ok (dictionary ++ entries)).
Proof.
  rewrite !Import_unfold.
  destruct (Tur.read_words 4 data 4) as [[header p1]|]; [|reflexivity]. cbn [bind].
  destruct (Tur.read_words 33 data p1) as [[section1 p2]|]; [|reflexivity]. cbn [bind].
  destruct (Tur.read_words 1025 data p2) as [[section2 p3]|]; [|reflexivity]. cbn [bind].
  destruct (Tur.make_prefixes _ 32 section2 0) as [prefixes|]; [|reflexivity].
  cbn [bind].
  destruct (index header 1) as [header1|]; [|reflexivity]. cbn [bind].
  destruct (Tur.read_section3 (Z.to_nat header1) data p3) as [[section3 p4]|];
    [|reflexivity].
  cbn [bind].
  destruct (index header 0) as [header0|]; [|reflexivity]. cbn [bind].
  destruct (Tur.read_records (Z.to_nat header0) data p4) as [section4 p5].
  destruct (index header 2) as [header2|]; [|reflexivity]. cbn [bind].
  destruct (index header 3) as [header3|]; [|reflexivity]. cbn [bind].
  destruct (Tur.read_records (Z.to_nat header3) data (p5 + header2)) as [section6 p6].
  unfold Tur.ReadDictionaryEntries. rewrite !read_prefixes_lines.
  destruct (output_lines data p5 section4 section6 (entry_slots prefixes 0));
    reflexivity.
Qed.

Lemma read_section3_ok (data : bytes) (n : nat) (pos : Z) :
  0 <= pos ->
  (n = 0%nat \/ pos + 14 * (Z.of_nat n - 1) + 3 <= len data) ->
  exists values,
    Tur.read_section3 n data pos = Ok (values, pos + 14 * Z.of_nat n)
    /\ List.length values = n.
Proof.
  revert pos. induction n as [|n IH]; intros pos Hpos Hfit.
  - exists []. cbn [Tur.read_section3]. split; [f_equal; f_equal; lia | reflexivity].
  - destruct Hfit as [Hz|Hfit]; [discriminate|].
    destruct (unpack_H_two (slice data (pos + 1) (pos + 1 + 2))) as [v Hv];
      [apply slice_exact; lia|].
    destruct (IH (pos + 14)) as [values [Hvalues Hlen]];
      [lia | destruct n; [left; reflexivity | right; lia] |].
    exists (v :: values). cbn [Tur.read_section3]. rewrite Hv. cbn [bind].
    replace (pos + 1 + 2 + 11) with (pos + 14) by lia.
    rewrite Hvalues. cbn [bind].
    split; [f_equal; f_equal; lia | cbn [List.length]; congruence].
Qed.

Lemma read_prefixes_no_entries (prefixes : list (str * Z)) (data : bytes)
    (base_offset : Z) (section4 section6 : list bytes) (item_index : Z)
    (dictionary : list str) :
  Forall (fun pc => snd pc = 0) prefixes ->
  Tur.read_prefixes prefixes data base_offset section4 section6 item_index dictionary
  = Ok dictionary.
Proof.
  induction 1 as [|[prefix count] prefixes Hcount Hrest IH]; [reflexivity|].
  cbn [snd] in Hcount. subst count. cbn [Tur.read_prefixes].
  change (0 =? 0) with true. cbn iota. exact IH.
Qed.

(** X21. A container without entries, one whose 1025 offsets of section 2
    are all equal, is imported without reading a record: when the buffer
    holds the fixed tables and section 3 the dictionary comes back as it
    was, whatever the header declares for sections 4, 5 and 6. *)
Theorem Import_no_entries (dictionary : list str) (data : bytes)
    (header section2 : list Z) (p p2 header1 : Z) :
  Tur.read_words 4 data 4 = Ok (header, p) ->
  index header 1 = Ok header1 ->
  2128 <= len data ->
  header1 = 0 \/ 2128 + 14 * (header1 - 1) + 3 <= len data ->
  Tur.read_words 1025 data 78 = Ok (section2, p2) ->
  Forall (fun count => count = 0) (entry_counts section2) ->
  Tur.Import dictionary data = Ok dictionary.
Proof.
  intros Hheader Hheader1 Hlen Hs3 Hsection2 Hzero.
  destruct (fixed_tables_read data Hlen)
    as (h & s1 & s2 & prefixes & Hh & Hhl & H1 & H2 & Hp).
  rewrite Hheader in Hh. inversion Hh. subst h p. clear Hh.
  rewrite Hsection2 in H2. inversion H2. subst s2 p2. clear H2.
  assert (Hh1 : 0 <= header1).
  { rewrite index_nonneg in Hheader1 by lia.
    change (Z.to_nat 1) with 1%nat in Hheader1.
    destruct (nth_error header 1) as [v|] eqn:E; [|discriminate].
    inversion Hheader1. subst v. clear Hheader1.
    destruct (read_words_values data 4 4 _ _ ltac:(lia) Hheader 1%nat header1 E)
      as [b0 [b1 [_ [_ ->]]]].
    pose proof (byte_val_range b0). pose proof (byte_val_range b1). lia. }
  destruct (read_section3_ok data (Z.to_nat header1) 2128) as [s3 [Hs3ok _]];
    [lia | destruct Hs3; [left; lia | right; lia] |].
  assert (Hidx : forall k, 0 <= k < 4 -> exists v, index header k = Ok v)
    by (intros k Hk; apply index_in_range; unfold len; lia).
  destruct (Hidx 0) as [header0 H0]; [lia|].
  destruct (Hidx 2) as [header2 Hh2]; [lia|].
  destruct (Hidx 3) as [header3 Hh3]; [lia|].
  rewrite Import_unfold, Hheader. cbn [bind]. rewrite H1. cbn [bind].
  rewrite Hsection2. cbn [bind]. rewrite Hp. cbn [bind]. rewrite Hheader1. cbn [bind].
  rewrite Hs3ok. cbn [bind]. rewrite H0. cbn [bind].
  destruct (Tur.read_records (Z.to_nat header0) data _) as [section4 p5].
  rewrite Hh2. cbn [bind]. rewrite Hh3. cbn [bind].
  destruct (Tur.read_records (Z.to_nat header3) data _) as [section6 p6].
  unfold Tur.ReadDictionaryEntries. apply read_prefixes_no_entries.
  apply make_prefixes_all_counts in Hp. rewrite <- Hp in Hzero.
  rewrite Forall_forall in *. intros pc Hin. apply Hzero. apply in_map. exact Hin.
Qed.

(** * Further properties of the output *)

Lemma split_lines_entry (entry rest line : str) :
  ~ In 10 entry ->
  split_lines (entry ++ [10] ++ rest) line = (line ++ entry) :: split_lines rest [].
Proof.
  revert line. induction entry as [|c entry IH]; intros line Hno.
  - cbn. rewrite app_nil_r. reflexivity.
  - cbn [app split_lines].
    destruct (Z.eqb_spec c 10) as [->|Hc]; [exfalso; apply Hno; left; reflexivity|].
    rewrite IH by (intros Hin; apply Hno; right; exact Hin).
    rewrite <- app_assoc. reflexivity.
Qed.

Lemma split_lines_Export (dictionary : list str) :
  Forall (fun entry => ~ In 10 entry) dictionary ->
  split_lines (Tur.Export dictionary) [] = dictionary.
Proof.
  induction 1 as [|entry dictionary Hentry Hrest IH]; [reflexivity|].
  unfold Tur.Export. cbn [map List.concat]. fold (Tur.Export dictionary).
  rewrite <- app_assoc, split_lines_entry by assumption.
  rewrite IH. reflexivity.
Qed.

(** X22. The text Export writes can be cut back into the entries: when
    no entry holds a newline, splitting the text at its newlines gives
    the dictionary, entry for entry and in order; and the text of two
    dictionaries put end to end is the two texts put end to end. *)
Theorem Export_split_lines (dictionary dictionary' : list str) :
  (Forall (fun entry => ~ In 10 entry) dictionary ->
   split_lines (Tur.Export dictionary) [] = dictionary)
  /\ Tur.Export (dictionary ++ dictionary')
     = Tur.Export dictionary ++ Tur.Export dictionary'.
Proof.
  split; [apply split_lines_Export|].
  unfold Tur.Export. rewrite map_app, concat_app. reflexivity.
Qed.

Lemma alphabet_no_newline (c : char) : In c Tur.alphabet -> c <> 10.
Proof.
  intros Hin Hc. subst c. revert Hin. vm_compute.
  repeat (intros [H|H]; [discriminate H | revert H]). intros [].
Qed.

Lemma devoice_no_newline (c : char) : c <> 10 -> devoice c <> 10.
Proof.
  unfold devoice.
  repeat match goal with
  | |- context [Z.eqb ?a ?b] => destruct (Z.eqb_spec a b)
  end; lia.
Qed.

Lemma devoice_last_no_newline (suffix : str) :
  ~ In 10 suffix -> ~ In 10 (devoice_last suffix).
Proof.
  destruct suffix as [|x l]; [auto|]. intros Hno.
  rewrite devoice_last_nonempty by discriminate.
  rewrite (app_removelast_last 0 (l := x :: l)) in Hno by discriminate.
  intros Hin. apply in_app_or in Hin. destruct Hin as [Hin|[Hin|[]]].
  - apply Hno. apply in_or_app. left. exact Hin.
  - apply (devoice_no_newline (last (x :: l) 0)); [|exact Hin].
    intros Hlast. apply Hno. apply in_or_app. right. left. exact Hlast.
Qed.

Lemma hex_digit_no_newline (d : Z) : 0 <= d -> hex_digit d <> 10.
Proof.
  unfold hex_digit. destruct (d <? 10); lia.
Qed.

Lemma Ok_inj {A : Type} (a b : A) : Ok a = Ok b -> a = b.
Proof. congruence. Qed.

Lemma debug_column_no_newline (record : bytes) (debug : str) :
  Tur.debug_column record = Ok debug -> ~ In 10 debug.
Proof.
  destruct record as [|b0 [|b1 rest]]; [discriminate | discriminate |].
  intros Hd.
  assert (Hfull : Tur.debug_column (b0 :: b1 :: rest)
                  = Ok ([48; 48 + byte_val b1 mod 8] ++ lit "    "
                        ++ [hex_digit (byte_val b1 / 16); hex_digit (byte_val b1 mod 16)]
                        ++ lit " "
                        ++ [hex_digit (byte_val b0 / 16); hex_digit (byte_val b0 mod 16)]
                        ++ lit "    ")).
  { unfold Tur.debug_column.
    change (index_b (b0 :: b1 :: rest) 1) with (Ok (byte_val b1)).
    change (index_b (b0 :: b1 :: rest) 0) with (Ok (byte_val b0)).
    cbn [bind].
    rewrite ByteToHex_low by (apply Z.mod_pos_bound; lia).
    rewrite !ByteToHex_byte by apply byte_val_range. reflexivity. }
  rewrite Hfull in Hd. apply Ok_inj in Hd. subst debug. clear Hfull.
  pose proof (byte_val_range b0) as R0. pose proof (byte_val_range b1) as R1.
  pose proof (Z.mod_pos_bound (byte_val b1) 8 ltac:(lia)) as M8.
  pose proof (hex_digit_no_newline (byte_val b1 / 16) ltac:(apply Z.div_pos; lia)).
  pose proof (hex_digit_no_newline (byte_val b1 mod 16)
                ltac:(apply Z.mod_pos_bound; lia)).
  pose proof (hex_digit_no_newline (byte_val b0 / 16) ltac:(apply Z.div_pos; lia)).
  pose proof (hex_digit_no_newline (byte_val b0 mod 16)
                ltac:(apply Z.mod_pos_bound; lia)).
  change (lit "    ") with [32; 32; 32; 32]. change (lit " ") with [32].
  cbn [app In]. unfold char in *. intuition lia.
Qed.

Lemma output_line_no_newline (data : bytes) (base_offset : Z)
    (section4 section6 : list bytes) (i : Z) (prefix line : str) :
  ~ In 10 prefix ->
  output_line data base_offset section4 section6 i prefix = Ok line ->
  ~ In 10 line.
Proof.
  intros Hprefix. unfold output_line, headword.
  destruct (index section4 i) as [record|]; [|discriminate]. cbn [bind].
  destruct (Tur.GetSuffix data record base_offset) as [suffix|] eqn:Hs; [|discriminate].
  cbn [bind].
  destruct (index_b record 0) as [k|]; [|discriminate]. cbn [bind].
  destruct (index section6 k) as [modification|]; [|discriminate]. cbn [bind].
  destruct (Tur.debug_column record) as [debug|] eqn:Hd; [|discriminate]. cbn [bind].
  intros H. apply Ok_inj in H. subst line.
  rewrite ApplyModifications_eq. cbn [snd].
  apply debug_column_no_newline in Hd.
  assert (Hsuffix : ~ In 10 suffix).
  { unfold Tur.GetSuffix in Hs.
    destruct (index_b record 1) as [b1|]; [|discriminate]. cbn [bind] in Hs.
    destruct (Tur.GetSuffixLength b1) as [n|]; [|discriminate].
    assert (Hletters : exists letters,
               Tur.GetSuffixReodered letters b1 = Ok suffix
               /\ Forall (fun c => In c Tur.alphabet) letters).
    { destruct (n =? 0).
      - exists []. split; [exact Hs | constructor].
      - destruct ((1 <=? n) && (n <=? 2)).
        + destruct (Tur.direct_letters (Z.to_nat n) record 0 []) as [s|] eqn:E;
            [|discriminate].
          apply direct_letters_spec in E. destruct E as [letters [-> [_ Hall]]].
          exists letters. auto.
        + destruct (unpack_H (slice record 2 4)) as [offset|]; [|discriminate].
          cbn [bind] in Hs.
          destruct (Tur.blob_letters (Z.to_nat n) data (base_offset + offset) 0 [])
            as [s|] eqn:E; [|discriminate].
          apply blob_letters_spec in E. destruct E as [letters [-> [_ Hall]]].
          exists letters. auto. }
    destruct Hletters as [letters [Hre Hall]].
    apply GetSuffixReodered_permutation in Hre.
    pose proof (Permutation_Forall Hre Hall) as Hall'.
    rewrite Forall_forall in Hall'. intros Hin.
    apply (alphabet_no_newline 10 (Hall' 10 Hin)). reflexivity. }
  apply devoice_last_no_newline in Hsuffix.
  intros Hin. apply in_app_or in Hin. destruct Hin as [Hin|Hin]; [auto|].
  apply in_app_or in Hin. destruct Hin as [Hin|Hin]; auto.
Qed.

Lemma output_lines_no_newline (data : bytes) (base_offset : Z)
    (section4 section6 : list bytes) (entries : list (Z * str)) (ls : list str) :
  Forall (fun entry => ~ In 10 (snd entry)) entries ->
  output_lines data base_offset section4 section6 entries = Ok ls ->
  Forall (fun line => ~ In 10 line) ls.
Proof.
  intros Hall. revert ls.
  induction Hall as [|[i prefix] entries Hprefix Hrest IH]; intros ls;
    cbn [output_lines].
  - intros H. inversion H. constructor.
  - destruct (output_line data base_offset section4 section6 i prefix) as [l|] eqn:Hl;
      [|discriminate].
    cbn [bind].
    destruct (output_lines data base_offset section4 section6 entries) as [ls'|];
      [|discriminate].
    cbn [bind]. intros H. inversion H. subst ls.
    constructor; [|apply IH; reflexivity].
    apply (output_line_no_newline _ _ _ _ _ _ _ Hprefix Hl).
Qed.

Lemma entry_slots_prefixes (prefixes : list (str * Z)) (item_index : Z) (P : str -> Prop) :
  Forall (fun pc => P (fst pc)) prefixes ->
  Forall (fun entry => P (snd entry)) (entry_slots prefixes item_index).
Proof.
  intros Hall. revert item_index.
  induction Hall as [|[prefix count] prefixes Hp Hrest IH]; intros item_index;
    cbn [entry_slots]; [constructor|].
  apply Forall_app. split; [|apply IH].
  rewrite Forall_forall. intros entry Hin. apply in_map_iff in Hin.
  destruct Hin as [i [<- _]]. exact Hp.
Qed.

Lemma make_prefixes_letters (n : nat) (letter_count : Z) (section2 : list Z)
    (prefix_index : Z) (prefixes : list (str * Z)) :
  Tur.make_prefixes n letter_count section2 prefix_index = Ok prefixes ->
  Forall (fun pc => ~ In 10 (fst pc)) prefixes.
Proof.
  revert prefix_index prefixes. induction n as [|n IH]; intros idx prefixes;
    cbn [Tur.make_prefixes].
  - intros H. inversion H. constructor.
  - destruct (index Tur.alphabet (idx / letter_count)) as [c1|] eqn:H1; [|discriminate].
    destruct (index Tur.alphabet (idx mod letter_count)) as [c2|] eqn:H2;
      [|discriminate].
    cbn [bind].
    destruct (index section2 (idx + 1)) as [hi|]; [|discriminate].
    destruct (index section2 idx) as [lo|]; [|discriminate].
    cbn [bind].
    destruct (Tur.make_prefixes n letter_count section2 (idx + 1)) as [rest|] eqn:Hrest;
      [|discriminate].
    cbn [bind]. intros H. inversion H. subst.
    constructor; [|apply (IH _ _ Hrest)].
    cbn [fst app In]. apply index_In in H1. apply index_In in H2.
    apply alphabet_no_newline in H1. apply alphabet_no_newline in H2.
    intuition congruence.
Qed.

(** X23. The file main writes for a container has one line per entry:
    no entry that Import assembles holds a newline, so the text is the
    entries each followed by a newline, and cutting it at the newlines
    gives the entries back. *)
Theorem main_one_line_per_entry (data : bytes) (text : str) :
  Tur.main data = Ok text ->
  exists dictionary,
    Tur.Import [] data = Ok dictionary
    /\ Forall (fun entry => ~ In 10 entry) dictionary
    /\ split_lines text [] = dictionary.
Proof.
  unfold Tur.main.
  destruct (Tur.Import [] data) as [dictionary|] eqn:Himport; [|discriminate].
  cbn [bind]. intros H. inversion H. subst text. clear H.
  exists dictionary. split; [reflexivity|].
  assert (Hclean : Forall (fun entry => ~ In 10 entry) dictionary).
  { rewrite Import_unfold in Himport.
    destruct (Tur.read_words 4 data 4) as [[header p1]|]; [|discriminate].
    cbn [bind] in Himport.
    destruct (Tur.read_words 33 data p1) as [[section1 p2]|]; [|discriminate].
    cbn [bind] in Himport.
    destruct (Tur.read_words 1025 data p2) as [[section2 p3]|]; [|discriminate].
    cbn [bind] in Himport.
    destruct (Tur.make_prefixes _ 32 section2 0) as [prefixes|] eqn:Hp; [|discriminate].
    cbn [bind] in Himport.
    destruct (index header 1) as [header1|]; [|discriminate]. cbn [bind] in Himport.
    destruct (Tur.read_section3 (Z.to_nat header1) data p3) as [[section3 p4]|];
      [|discriminate].
    cbn [bind] in Himport.
    destruct (index header 0) as [header0|]; [|discriminate]. cbn [bind] in Himport.
    destruct (Tur.read_records (Z.to_nat header0) data p4) as [section4 p5].
    destruct (index header 2) as [header2|]; [|discriminate]. cbn [bind] in Himport.
    destruct (index header 3) as [header3|]; [|discriminate]. cbn [bind] in Himport.
    destruct (Tur.read_records (Z.to_nat header3) data (p5 + header2)) as [section6 p6].
    unfold Tur.ReadDictionaryEntries in Himport. rewrite read_prefixes_lines in Himport.
    destruct (output_lines data p5 section4 section6 (entry_slots prefixes 0))
      as [ls|] eqn:Hls; [|discriminate].
    cbn [bind app] in Himport. inversion Himport. subst dictionary.
    apply (output_lines_no_newline _ _ _ _ _ _
             (entry_slots_prefixes prefixes 0 (fun prefix => ~ In 10 prefix)
                (make_prefixes_letters _ _ _ _ _ Hp)) Hls). }
  split; [exact Hclean | apply split_lines_Export; exact Hclean].
Qed.

(** * The exceptions the two readers can raise *)

Lemma unpack_H_raises (b : bytes) (e : exn) : unpack_H b = Raise e -> e = StructError.
Proof.
  destruct b as [|b0 [|b1 [|b2 b]]]; cbn [unpack_H]; congruence.
Qed.

Lemma unpack_L_raises (b : bytes) (e : exn) : unpack_L b = Raise e -> e = StructError.
Proof.
  destruct b as [|b0 [|b1 [|b2 [|b3 [|b4 b]]]]]; cbn [unpack_L]; congruence.
Qed.

Lemma read_words_raises (n : nat) (data : bytes) (pos : Z) (e : exn) :
  Tur.read_words n data pos = Raise e -> e = StructError.
Proof.
  revert pos. induction n as [|n IH]; intros pos; cbn [Tur.read_words]; [discriminate|].
  destruct (unpack_H (slice data pos (pos + 2))) as [v|e'] eqn:Hv; cbn [bind].
  - destruct (Tur.read_words n data (pos + 2)) as [[rest p]|e'] eqn:Hrest; cbn [bind];
      [discriminate|].
    intros H. assert (e' = e) by congruence. subst e'. apply (IH _ Hrest).
  - intros H. apply unpack_H_raises in Hv. congruence.
Qed.

Lemma read_section3_raises (n : nat) (data : bytes) (pos : Z) (e : exn) :
  Tur.read_section3 n data pos = Raise e -> e = StructError.
Proof.
  revert pos. induction n as [|n IH]; intros pos; cbn [Tur.read_section3];
    [discriminate|].
  destruct (unpack_H (slice data (pos + 1) (pos + 1 + 2))) as [v|e'] eqn:Hv; cbn [bind].
  - destruct (Tur.read_section3 n data (pos + 1 + 2 + 11)) as [[rest p]|e'] eqn:Hrest;
      cbn [bind]; [discriminate|].
    intros H. assert (e' = e) by congruence. subst e'. apply (IH _ Hrest).
  - intros H. apply unpack_H_raises in Hv. congruence.
Qed.

Lemma make_prefixes_raises (n : nat) (letter_count : Z) (section2 : list Z)
    (prefix_index : Z) (e : exn) :
  Tur.make_prefixes n letter_count section2 prefix_index = Raise e -> e = IndexError.
Proof.
  revert prefix_index. induction n as [|n IH]; intros idx; cbn [Tur.make_prefixes];
    [discriminate|].
  destruct (index Tur.alphabet (idx / letter_count)) as [c1|e1] eqn:H1; cbn [bind];
    [|intros H; apply index_raises in H1; congruence].
  destruct (index Tur.alphabet (idx mod letter_count)) as [c2|e2] eqn:H2; cbn [bind];
    [|intros H; apply index_raises in H2; congruence].
  destruct (index section2 (idx + 1)) as [hi|e3] eqn:H3; cbn [bind];
    [|intros H; apply index_raises in H3; congruence].
  destruct (index section2 idx) as [lo|e4] eqn:H4; cbn [bind];
    [|intros H; apply index_raises in H4; congruence].
  destruct (Tur.make_prefixes n letter_count section2 (idx + 1)) as [rest|e5] eqn:H5;
    cbn [bind]; [discriminate|].
  intros H. assert (e5 = e) by congruence. subst e5. apply (IH _ H5).
Qed.

Lemma GetSuffixReodered_raises (suffix : str) (value : Z) (e : exn) :
  Tur.GetSuffixReodered suffix value = Raise e -> e = IndexError.
Proof.
  unfold Tur.GetSuffixReodered.
  destruct (0xb8 <=? value); [|discriminate].
  destruct (_ && _).
  - destruct (index suffix (-1)) eqn:E; cbn [bind]; [discriminate|].
    intros H. apply index_raises in E. congruence.
  - destruct (_ && _).
    + destruct (index suffix 0) eqn:E; cbn [bind]; [discriminate|].
      intros H. apply index_raises in E. congruence.
    + destruct (_ && _); discriminate.
Qed.

Lemma GetSuffix_raises (data instructions : bytes) (base_offset : Z) (e : exn) :
  Tur.GetSuffix data instructions base_offset = Raise e ->
  e = IndexError \/ e = StructError.
Proof.
  unfold Tur.GetSuffix.
  destruct (index_b instructions 1) as [b1|e1] eqn:Hb1; cbn [bind];
    [|intros H; apply index_b_raises in Hb1; left; congruence].
  destruct (GetSuffixLength_of_byte b1 (index_b_range _ _ _ Hb1)) as [n [Hn _]].
  rewrite Hn.
  destruct (n =? 0).
  - cbn [bind]. intros H. apply GetSuffixReodered_raises in H. auto.
  - destruct ((1 <=? n) && (n <=? 2)).
    + destruct (Tur.direct_letters (Z.to_nat n) instructions 0 []) as [s|e'] eqn:Hs;
        cbn [bind].
      * intros H. apply GetSuffixReodered_raises in H. auto.
      * intros H. apply direct_letters_raises in Hs. left. congruence.
    + destruct (unpack_H (slice instructions 2 4)) as [offset|e'] eqn:Ho; cbn [bind];
        [|intros H; apply unpack_H_raises in Ho; right; congruence].
      destruct (Tur.blob_letters (Z.to_nat n) data (base_offset + offset) 0 [])
        as [s|e'] eqn:Hs; cbn [bind].
      * intros H. apply GetSuffixReodered_raises in H. auto.
      * intros H. apply blob_letters_raises in Hs. left. congruence.
Qed.

Lemma output_lines_raises (data : bytes) (base_offset : Z)
    (section4 section6 : list bytes) (entries : list (Z * str)) (e : exn) :
  output_lines data base_offset section4 section6 entries = Raise e ->
  e = IndexError \/ e = StructError.
Proof.
  induction entries as [|[i prefix] entries IH]; cbn [output_lines]; [discriminate|].
  destruct (output_line data base_offset section4 section6 i prefix) as [l|e'] eqn:Hl;
    cbn [bind].
  - destruct (output_lines data base_offset section4 section6 entries) as [ls|e'];
      cbn [bind]; [discriminate|].
    intros H. apply IH. congruence.
  - intros H. assert (e' = e) by congruence. subst e'. clear H.
    unfold output_line, headword in Hl.
    destruct (index section4 i) as [record|e1] eqn:H1; cbn [bind] in Hl;
      [|apply index_raises in H1; left; congruence].
    destruct (Tur.GetSuffix data record base_offset) as [suffix|e2] eqn:H2;
      cbn [bind] in Hl; [|apply GetSuffix_raises in H2; intuition congruence].
    destruct (index_b record 0) as [k|e3] eqn:H3; cbn [bind] in Hl;
      [|apply index_b_raises in H3; left; congruence].
    destruct (index section6 k) as [modification|e4] eqn:H4; cbn [bind] in Hl;
      [|apply index_raises in H4; left; congruence].
    unfold Tur.debug_column in Hl.
    destruct (index_b record 1) as [c1|e5] eqn:H5; cbn [bind] in Hl;
      [|apply index_b_raises in H5; left; congruence].
    rewrite H3 in Hl. cbn [bind] in Hl. discriminate.
Qed.

(** X24. Import raises nothing but struct.error and IndexError:
    struct.error when the buffer cuts a 16-bit field or a record of
    section 4 short, IndexError when an index leaves a table, the
    alphabet or the buffer. *)
Theorem Import_exceptions (dictionary : list str) (data : bytes) (e : exn) :
  Tur.Import dictionary data = Raise e -> e = StructError \/ e = IndexError.
Proof.
  rewrite Import_unfold.
  destruct (Tur.read_words 4 data 4) as [[header p1]|e1] eqn:H1; cbn [bind];
    [|intros H; apply read_words_raises in H1; left; congruence].
  destruct (Tur.read_words 33 data p1) as [[section1 p2]|e2] eqn:H2; cbn [bind];
    [|intros H; apply read_words_raises in H2; left; congruence].
  destruct (Tur.read_words 1025 data p2) as [[section2 p3]|e3] eqn:H3; cbn [bind];
    [|intros H; apply read_words_raises in H3; left; congruence].
  destruct (Tur.make_prefixes _ 32 section2 0) as [prefixes|e4] eqn:H4; cbn [bind];
    [|intros H; apply make_prefixes_raises in H4; right; congruence].
  destruct (index header 1) as [header1|e5] eqn:H5; cbn [bind];
    [|intros H; apply index_raises in H5; right; congruence].
  destruct (Tur.read_section3 (Z.to_nat header1) data p3) as [[section3 p4]|e6] eqn:H6;
    cbn [bind]; [|intros H; apply read_section3_raises in H6; left; congruence].
  destruct (index header 0) as [header0|e7] eqn:H7; cbn [bind];
    [|intros H; apply index_raises in H7; right; congruence].
  destruct (Tur.read_records (Z.to_nat header0) data p4) as [section4 p5].
  destruct (index header 2) as [header2|e8] eqn:H8; cbn [bind];
    [|intros H; apply index_raises in H8; right; congruence].
  destruct (index header 3) as [header3|e9] eqn:H9; cbn [bind];
    [|intros H; apply index_raises in H9; right; congruence].
  destruct (Tur.read_records (Z.to_nat header3) data (p5 + header2)) as [section6 p6].
  unfold Tur.ReadDictionaryEntries. rewrite read_prefixes_lines.
  destruct (output_lines data p5 section4 section6 (entry_slots prefixes 0))
    as [ls|e10] eqn:H10; cbn [bind]; [discriminate|].
  intros H. apply output_lines_raises in H10. intuition congruence.
Qed.

Section TrkExceptions.

Variable title : str -> str.
Variable decode : bytes -> result str.
Hypothesis decode_raises :
  forall b e, decode b = Raise e -> e = UnicodeDecodeError.

Lemma ExpandMorpheme_raises (prefix_index : Z) (morpheme previous_word : str)
    (instruction suffix_index : Z) (e : exn) :
  0 <= prefix_index < 26 * 26 ->
  Trk.ExpandMorpheme title prefix_index morpheme previous_word instruction suffix_index
  = Raise e ->
  e = IndexError.
Proof.
  intros Hslot. destruct (offset_map_slot_prefix _ Hslot) as [Hp _].
  unfold Trk.ExpandMorpheme.
  rewrite (chr_ok _ Hp), chr_second_letter. cbn [bind].
  destruct (index Trk.suffixes suffix_index) as [s|e'] eqn:Hs.
  - repeat match goal with
    | |- context [if ?b then _ else _] => destruct b
    end; cbn [bind]; discriminate.
  - apply index_raises in Hs. subst e'.
    repeat match goal with
    | |- context [if ?b then _ else _] => destruct b
    end; cbn [bind]; congruence.
Qed.

Lemma read_turkish_raises (data : bytes) (base_offset pos : Z) (e : exn) :
  Trk.read_turkish decode data base_offset pos = Raise e -> reader_exception e.
Proof.
  unfold Trk.read_turkish, reader_exception.
  destruct (index_b data (pos + 1)) as [b1|e1] eqn:H1; cbn [bind];
    [|intros H; apply index_b_raises in H1; right; left; congruence].
  destruct (index_b data (pos + 2)) as [b2|e2] eqn:H2; cbn [bind];
    [|intros H; apply index_b_raises in H2; right; left; congruence].
  destruct (index_b data pos) as [b0|e0] eqn:H0; cbn [bind];
    [|intros H; apply index_b_raises in H0; right; left; congruence].
  destruct (0 <? _); [|discriminate].
  destruct (unpack_H _) as [tr_len|e3] eqn:H3; cbn [bind];
    [|intros H; apply unpack_H_raises in H3; left; congruence].
  destruct (0 <? tr_len); [|discriminate].
  destruct (decode _) as [t|e4] eqn:H4; cbn [bind]; [discriminate|].
  intros H. apply decode_raises in H4. right. right. congruence.
Qed.

Lemma scan_terminator_raises (rest : bytes) (k : Z) (e : exn) :
  Trk.scan_terminator rest k = Raise e -> e = IndexError.
Proof.
  revert k. induction rest as [|b rest IH]; intros k; cbn [Trk.scan_terminator];
    [congruence|].
  destruct (byte_val b =? 0xFF); [discriminate | apply IH].
Qed.

Lemma read_entry_raises (i : Z) (data : bytes) (base_offset pos : Z)
    (previous_word : str) (e : exn) :
  0 <= i < 26 * 26 ->
  Trk.read_entry title decode i data base_offset pos previous_word = Raise e ->
  reader_exception e.
Proof.
  intros Hslot. unfold Trk.read_entry, reader_exception.
  destruct (index_b data pos) as [instruction|e0] eqn:H0; cbn [bind];
    [|intros H; apply index_b_raises in H0; right; left; congruence].
  destruct (if 0x80 <=? instruction
            then suffix_index <- index_b data (pos + 1) ;; Ok (suffix_index, pos + 1 + 1)
            else Ok (0, pos + 1)) as [[suffix_index p1]|e1] eqn:H1; cbn [bind].
  2:{ intros H. destruct (0x80 <=? instruction); [|discriminate].
      destruct (index_b data (pos + 1)) as [s|e'] eqn:Hs; cbn [bind] in H1;
        [discriminate|].
      apply index_b_raises in Hs. right. left. congruence. }
  destruct (Trk.scan_terminator (slice_from data p1) 0) as [en_len|e2] eqn:H2;
    cbn [bind]; [|intros H; apply scan_terminator_raises in H2; right; left; congruence].
  destruct (decode (slice data p1 (p1 + en_len))) as [morpheme|e3] eqn:H3; cbn [bind];
    [|intros H; apply decode_raises in H3; right; right; congruence].
  destruct (Trk.ExpandMorpheme title i morpheme previous_word instruction suffix_index)
    as [word|e4] eqn:H4; cbn [bind];
    [|intros H; apply (ExpandMorpheme_raises _ _ _ _ _ _ Hslot) in H4;
      right; left; congruence].
  destruct (Trk.read_turkish decode data base_offset (p1 + en_len + 1))
    as [[t p2]|e5] eqn:H5; cbn [bind]; [discriminate|].
  intros H. apply read_turkish_raises in H5. unfold reader_exception in H5. congruence.
Qed.

Lemma read_bucket_raises (fuel : nat) (i : Z) (data : bytes) (base_offset limit pos : Z)
    (previous_word : str) (dictionary : list (str * str)) (e : exn) :
  0 <= i < 26 * 26 ->
  Trk.read_bucket title decode fuel i data base_offset limit pos previous_word dictionary
  = Some (Raise e) ->
  reader_exception e.
Proof.
  intros Hslot. revert pos previous_word dictionary.
  induction fuel as [|fuel IH]; intros pos previous_word dictionary;
    cbn [Trk.read_bucket]; destruct (pos <? limit); try discriminate.
  destruct (Trk.read_entry title decode i data base_offset pos previous_word)
    as [[[pos1 previous1] entry]|e'] eqn:Hentry.
  - apply IH.
  - intros H. apply (read_entry_raises _ _ _ _ _ _ Hslot) in Hentry. congruence.
Qed.

Lemma read_buckets_raises (fuel : nat) (offsets : list Z) (i : Z) (data : bytes)
    (base_offset pos : Z) (previous_word : str) (dictionary : list (str * str))
    (e : exn) :
  0 <= i -> i + len offsets <= 26 * 26 ->
  Trk.read_buckets title decode fuel offsets i data base_offset pos previous_word
    dictionary = Some (Raise e) ->
  reader_exception e.
Proof.
  revert i pos previous_word dictionary.
  induction offsets as [|offset offsets IH]; intros i pos previous_word dictionary Hi Hlen;
    cbn [Trk.read_buckets]; [discriminate|].
  assert (Hl : len (offset :: offsets) = len offsets + 1)
    by (unfold len; cbn [List.length]; lia).
  pose proof (len_nonneg offsets) as Hnn.
  destruct (Trk.read_bucket title decode fuel i data base_offset (base_offset + offset)
              pos previous_word dictionary) as [[[[pos1 previous1] dictionary1]|e']|]
    eqn:Hbucket; [| |discriminate].
  - apply IH; lia.
  - intros H. apply read_bucket_raises in Hbucket; [congruence | lia].
Qed.

Lemma read_offsets_result (n : nat) (data : bytes) (pos : Z) :
  match Trk.read_offsets n data pos with
  | Ok (offsets, _) => List.length offsets = n
  | Raise e => e = StructError
  end.
Proof.
  revert pos. induction n as [|n IH]; intros pos; cbn [Trk.read_offsets];
    [reflexivity|].
  destruct (unpack_L (slice data pos (pos + 3) ++ [x00])) as [v|e] eqn:Hv; cbn [bind];
    [|apply (unpack_L_raises _ _ Hv)].
  specialize (IH (pos + 3)).
  destruct (Trk.read_offsets n data (pos + 3)) as [[offsets p]|e]; cbn [bind];
    [cbn [List.length]; congruence | exact IH].
Qed.

(** X25. With a codec that raises nothing but UnicodeDecodeError,
    ReadFile raises nothing but struct.error, IndexError and
    UnicodeDecodeError; in particular chr is only called on the 676
    slots of the offset map and never raises ValueError. *)
Theorem ReadFile_exceptions (data : bytes) (e : exn) :
  Trk.ReadFile title decode data = Some (Raise e) ->
  e = StructError \/ e = IndexError \/ e = UnicodeDecodeError.
Proof.
  unfold Trk.ReadFile.
  pose proof (read_offsets_result (Z.to_nat (26 * 26)) data 3) as Hoff.
  destruct (Trk.read_offsets (Z.to_nat (26 * 26)) data 3) as [[offsets pos]|e'].
  - destruct (Trk.read_buckets title decode (List.length data) offsets 0 data pos pos [] [])
      as [[d|e']|] eqn:Hb; try discriminate.
    intros H. apply read_buckets_raises in Hb; [| lia | unfold len; lia].
    unfold reader_exception in Hb. congruence.
  - intros H. left. congruence.
Qed.

End TrkExceptions.

(** * Instances of the further properties *)

Lemma ExpandMorpheme_bit_fields_0xE1 :
  in_chr_range (Trk.ord_a + 1 / 26)
  /\ recognized 0xE1 /\ 0xE1 <> 0x12
  /\ Trk.ExpandMorpheme Trk.title_ascii 1 (lit "le") (lit "cd") 0xE1 194
     = Ok (lit "Ab" ++ lit "c" ++ lit "le" ++ lit "us").
Proof.
  assert (Hp : in_chr_range (Trk.ord_a + 1 / 26)) by (vm_compute; split; congruence).
  assert (Hr : recognized 0xE1) by (unfold recognized; lia).
  assert (Hn : 0xE1 <> 0x12) by lia.
  split; [exact Hp|]. split; [exact Hr|]. split; [exact Hn|].
  rewrite (ExpandMorpheme_bit_fields Trk.title_ascii 1 (lit "le") (lit "cd") 0xE1 194
             Hp Hr Hn).
  reflexivity.
Defined.

Lemma ExpandMorpheme_suffix_index_200 :
  in_chr_range (Trk.ord_a + 1 / 26)
  /\ attaches_suffix 0x80 /\ 195 <= 200
  /\ Trk.ExpandMorpheme Trk.title_ascii 1 (lit "le") [] 0x80 200 = Raise IndexError.
Proof.
  assert (Hp : in_chr_range (Trk.ord_a + 1 / 26)) by (vm_compute; split; congruence).
  assert (Hc : attaches_suffix 0x80) by (unfold attaches_suffix; lia).
  assert (Hbig : 195 <= 200) by lia.
  split; [exact Hp|]. split; [exact Hc|]. split; [exact Hbig|].
  exact (proj1 (ExpandMorpheme_suffix_index Trk.title_ascii 1 (lit "le") [] 0x80 200 Hp)
           Hc Hbig).
Defined.

Lemma scan_terminator_first_FF_le :
  Forall (fun b => b <> xff) [x6c; x65]
  /\ Trk.scan_terminator ([x6c; x65] ++ xff :: [x00; xff]) 0 = Ok 2.
Proof.
  assert (Hm : Forall (fun b => b <> xff) [x6c; x65])
    by (repeat constructor; discriminate).
  split; [exact Hm|].
  exact (proj1 (scan_terminator_first_FF [x6c; x65] [x00; xff] Hm)).
Defined.

Lemma read_entry_layout_able :
  let data := [x00; x6c; x65; xff; x00; x00; x00] in
  0 <= 0
  /\ Trk.read_entry Trk.title_ascii Trk.decode_cp857 1 data 0 0 []
     = Ok (7, lit "le", (lit "able", []))
  /\ exists instruction en_len,
       index_b data 0 = Ok instruction
       /\ 0 <= en_len
       /\ 7 = 0 + (if 0x80 <=? instruction then 2 else 1) + en_len + 4
       /\ index_b data (7 - 4) = Ok 0xFF
       /\ 7 <= len data.
Proof.
  intros data.
  assert (Hpos : 0 <= 0) by lia.
  assert (Hentry : Trk.read_entry Trk.title_ascii Trk.decode_cp857 1 data 0 0 []
                   = Ok (7, lit "le", (lit "able", []))) by reflexivity.
  split; [exact Hpos|]. split; [exact Hentry|].
  exact (read_entry_layout Trk.title_ascii Trk.decode_cp857 1 data 0 0 [] 7 (lit "le")
           (lit "able", []) Hpos Hentry).
Defined.

Lemma read_offsets_fits_one :
  0 <= 0
  /\ 0 + 3 * Z.of_nat 1 <= len [x01; x02; x03]
  /\ exists offsets,
       Trk.read_offsets 1 [x01; x02; x03] 0 = Ok (offsets, 0 + 3 * Z.of_nat 1)
       /\ List.length offsets = 1%nat
       /\ Forall (fun offset => 0 <= offset < 2 ^ 24) offsets.
Proof.
  assert (Hpos : 0 <= 0) by lia.
  assert (Hfit : 0 + 3 * Z.of_nat 1 <= len [x01; x02; x03])
    by (vm_compute; congruence).
  split; [exact Hpos|]. split; [exact Hfit|].
  exact (proj1 (read_offsets_fits [x01; x02; x03] 1 0 Hpos) Hfit).
Defined.

Lemma read_turkish_out_of_buffer_sample :
  let data := [x00; x09; x00] in
  0 <= 0 /\ 0 <= 0
  /\ index_b data 0 = Ok 0 /\ index_b data (0 + 1) = Ok 9 /\ index_b data (0 + 2) = Ok 0
  /\ middle_endian 0 9 0 <> 0
  /\ len data < 0 + middle_endian 0 9 0 + 2
  /\ Trk.read_turkish Trk.decode_cp857 data 0 0 = Raise StructError.
Proof.
  intros data.
  assert (Hpos : 0 <= 0) by lia.
  assert (H0 : index_b data 0 = Ok 0) by reflexivity.
  assert (H1 : index_b data (0 + 1) = Ok 9) by reflexivity.
  assert (H2 : index_b data (0 + 2) = Ok 0) by reflexivity.
  assert (Hnz : middle_endian 0 9 0 <> 0) by discriminate.
  assert (Hfar : len data < 0 + middle_endian 0 9 0 + 2) by reflexivity.
  repeat (split; [assumption|]).
  exact (proj1 (read_turkish_out_of_buffer Trk.decode_cp857 data 0 0 Hpos Hpos)
           0 9 0 H0 H1 H2 Hnz Hfar).
Defined.

Lemma export_line_columns_able :
  len (lit "able") <= 30
  /\ skipn 30 (Trk.export_line (lit "able", lit "x")) = lit "x" ++ [10].
Proof.
  assert (Hshort : len (lit "able") <= 30) by (vm_compute; congruence).
  split; [exact Hshort|].
  exact (proj1 (proj2 (proj1 (export_line_columns (lit "able") (lit "x")) Hshort))).
Defined.

Lemma reorder_is_permutation_abcd :
  Tur.GetSuffixReodered (lit "abcd") 0xb8 = Ok (lit "dabc")
  /\ Permutation (lit "abcd") (lit "dabc").
Proof.
  assert (Hre : Tur.GetSuffixReodered (lit "abcd") 0xb8 = Ok (lit "dabc"))
    by reflexivity.
  split; [exact Hre|].
  exact (proj1 (reorder_is_permutation (lit "abcd") 0xb8) (lit "dabc") Hre).
Defined.

Lemma GetSuffix_length_ad :
  Tur.GetSuffix [] [x00; x10; x00; x04] 0 = Ok (lit "ad")
  /\ exists b1 n,
       index_b [x00; x10; x00; x04] 1 = Ok b1
       /\ Tur.GetSuffixLength b1 = Some n
       /\ len (lit "ad") = n
       /\ Forall (fun c => In c Tur.alphabet) (lit "ad").
Proof.
  assert (Hs : Tur.GetSuffix [] [x00; x10; x00; x04] 0 = Ok (lit "ad")) by reflexivity.
  split; [exact Hs|].
  exact (GetSuffix_length [] [x00; x10; x00; x04] 0 (lit "ad") Hs).
Defined.

Lemma GetSuffix_only_IndexError_sample :
  Tur.GetSuffix [] [x00; x08; xff; x00] 0 = Raise IndexError
  /\ IndexError = IndexError.
Proof.
  assert (Hs : Tur.GetSuffix [] [x00; x08; xff; x00] 0 = Raise IndexError)
    by reflexivity.
  split; [exact Hs|].
  exact (GetSuffix_only_IndexError [] x00 x08 xff x00 0 IndexError Hs).
Defined.

Lemma GetSuffix_short_ignores_blob_sample :
  index_b [x00; x08; x00; x00] 1 = Ok 8 /\ 8 < 0x18
  /\ Tur.GetSuffix [] [x00; x08; x00; x00] 0
     = Tur.GetSuffix [x01; x02] [x00; x08; x00; x00] 5.
Proof.
  assert (Hb : index_b [x00; x08; x00; x00] 1 = Ok 8) by reflexivity.
  assert (Hshort : 8 < 0x18) by lia.
  split; [exact Hb|]. split; [exact Hshort|].
  exact (GetSuffix_short_ignores_blob [] [x01; x02] [x00; x08; x00; x00] 0 5 8 Hb Hshort).
Defined.

Lemma GetSuffix_blob_abc :
  let data := [x00; x01; x02] in
  0x18 <= byte_val x18 < 0xb8 /\ 0 <= 0
  /\ 0 + (byte_val x00 + 256 * byte_val x00) + byte_val x18 / 8 <= len data
  /\ Forall (fun b => byte_val b < 59) (slice data 0 3)
  /\ Tur.GetSuffix data [x00; x18; x00; x00] 0 = Ok (lit "abc").
Proof.
  intros data.
  assert (Hb : 0x18 <= byte_val x18 < 0xb8) by (vm_compute; split; congruence).
  assert (Hbase : 0 <= 0) by lia.
  assert (Hfit : 0 + (byte_val x00 + 256 * byte_val x00) + byte_val x18 / 8 <= len data)
    by (vm_compute; congruence).
  assert (Hall : Forall (fun b => byte_val b < 59) (slice data 0 3))
    by (repeat constructor).
  split; [exact Hb|]. split; [exact Hbase|]. split; [exact Hfit|]. split; [exact Hall|].
  exact (proj1 (GetSuffix_blob data x00 x18 x00 x00 0 Hb Hbase) Hfit Hall).
Defined.

Lemma debug_column_width_sample :
  Tur.debug_column [x2f; xbd] = Ok (lit "05    bd 2f    ")
  /\ len (lit "05    bd 2f    ") = 15.
Proof.
  assert (Hd : Tur.debug_column [x2f; xbd] = Ok (lit "05    bd 2f    "))
    by reflexivity.
  split; [exact Hd|].
  exact (proj1 (proj2 (debug_column_width [x2f; xbd])) (lit "05    bd 2f    ") Hd).
Defined.

Lemma read_records_slices_sample :
  0 <= 0
  /\ snd (Tur.read_records 2 [x01; x02; x03; x04; x05] 0) = 0 + 4 * Z.of_nat 2
  /\ fst (Tur.read_records 2 [x01; x02; x03; x04; x05] 0)
     = [[x01; x02; x03; x04]; [x05]]
  /\ List.concat (fst (Tur.read_records 2 [x01; x02; x03; x04; x05] 0))
     = slice [x01; x02; x03; x04; x05] 0 (0 + 4 * Z.of_nat 2).
Proof.
  assert (Hpos : 0 <= 0) by lia.
  destruct (read_records_slices 2 [x01; x02; x03; x04; x05] 0 Hpos)
    as [Hp [_ [Hc _]]].
  split; [exact Hpos|]. split; [exact Hp|]. split; [reflexivity | exact Hc].
Defined.

Lemma read_words_little_endian_sample :
  0 <= 0
  /\ 0 + 2 * Z.of_nat 1 <= len [x34; x12; x00]
  /\ Tur.read_words 1 [x34; x12; x00] 0 = Ok ([0x1234], 2)
  /\ exists values,
       Tur.read_words 1 [x34; x12; x00] 0 = Ok (values, 0 + 2 * Z.of_nat 1)
       /\ List.length values = 1%nat
       /\ (forall k v, nth_error values k = Some v ->
             exists b0 b1,
               index [x34; x12; x00] (0 + 2 * Z.of_nat k) = Ok b0
               /\ index [x34; x12; x00] (0 + 2 * Z.of_nat k + 1) = Ok b1
               /\ v = byte_val b0 + 256 * byte_val b1).
Proof.
  assert (Hpos : 0 <= 0) by lia.
  assert (Hfit : 0 + 2 * Z.of_nat 1 <= len [x34; x12; x00]) by (vm_compute; congruence).
  split; [exact Hpos|]. split; [exact Hfit|]. split; [reflexivity|].
  exact (proj1 (read_words_little_endian [x34; x12; x00] 1 0 Hpos) Hfit).
Defined.

Lemma make_prefixes_table_zero :
  len (repeat 0 1025) = 1025
  /\ exists prefixes,
       Tur.make_prefixes (Z.to_nat (len (repeat 0 1025) - 1)) 32 (repeat 0 1025) 0
       = Ok prefixes
       /\ map fst prefixes = map tur_prefix (range_from 0 1024)
       /\ NoDup (map fst prefixes)
       /\ map snd prefixes = entry_counts (repeat 0 1025).
Proof.
  assert (Hlen : len (repeat 0 1025) = 1025) by (vm_compute; reflexivity).
  split; [exact Hlen|].
  exact (make_prefixes_table (repeat 0 1025) Hlen).
Defined.

Lemma Import_no_entries_zero :
  let data := repeat x00 2128 in
  Tur.read_words 4 data 4 = Ok ([0; 0; 0; 0], 12)
  /\ index [0; 0; 0; 0] 1 = Ok 0
  /\ 2128 <= len data
  /\ Tur.read_words 1025 data 78 = Ok (repeat 0 1025, 2128)
  /\ Tur.Import [lit "aba"] data = Ok [lit "aba"].
Proof.
  intros data.
  assert (Hheader : Tur.read_words 4 data 4 = Ok ([0; 0; 0; 0], 12))
    by (vm_compute; reflexivity).
  assert (Hheader1 : index [0; 0; 0; 0] 1 = Ok 0) by reflexivity.
  assert (Hlen : 2128 <= len data) by (vm_compute; congruence).
  assert (Hs3 : 0 = 0 \/ 2128 + 14 * (0 - 1) + 3 <= len data) by (left; reflexivity).
  assert (Hsection2 : Tur.read_words 1025 data 78 = Ok (repeat 0 1025, 2128))
    by (vm_compute; reflexivity).
  assert (Hzero : Forall (fun count => count = 0) (entry_counts (repeat 0 1025))).
  { apply Forall_forall. intros count Hin. apply Z.eqb_eq.
    refine (proj1 (forallb_forall (fun c => c =? 0) (entry_counts (repeat 0 1025)))
              _ count Hin).
    vm_compute. reflexivity. }
  split; [exact Hheader|]. split; [exact Hheader1|]. split; [exact Hlen|].
  split; [exact Hsection2|].
  exact (Import_no_entries [lit "aba"] data [0; 0; 0; 0] (repeat 0 1025) 12 2128 0
           Hheader Hheader1 Hlen Hs3 Hsection2 Hzero).
Defined.

Lemma Export_split_lines_sample :
  Forall (fun entry => ~ In 10 entry) [lit "ab"; lit "c"]
  /\ Tur.Export [lit "ab"; lit "c"] = lit "ab" ++ [10] ++ lit "c" ++ [10]
  /\ split_lines (Tur.Export [lit "ab"; lit "c"]) [] = [lit "ab"; lit "c"].
Proof.
  assert (Hclean : Forall (fun entry => ~ In 10 entry) [lit "ab"; lit "c"]).
  { repeat constructor; cbn; intuition discriminate. }
  split; [exact Hclean|]. split; [reflexivity|].
  exact (proj1 (Export_split_lines [lit "ab"; lit "c"] []) Hclean).
Defined.

Lemma main_one_line_per_entry_sample :
  Tur.main Samples.tur_container = Ok (lit "00    08 00    aaa" ++ [10])
  /\ exists dictionary,
       Tur.Import [] Samples.tur_container = Ok dictionary
       /\ Forall (fun entry => ~ In 10 entry) dictionary
       /\ split_lines (lit "00    08 00    aaa" ++ [10]) [] = dictionary.
Proof.
  assert (Hmain : Tur.main Samples.tur_container = Ok (lit "00    08 00    aaa" ++ [10]))
    by (vm_compute; reflexivity).
  split; [exact Hmain|].
  exact (main_one_line_per_entry Samples.tur_container _ Hmain).
Defined.

Lemma Import_exceptions_empty :
  Tur.Import [] [] = Raise StructError
  /\ (StructError = StructError \/ StructError = IndexError).
Proof.
  assert (Himport : Tur.Import [] [] = Raise StructError) by reflexivity.
  split; [exact Himport|].
  exact (Import_exceptions [] [] StructError Himport).
Defined.

Lemma decode_cp857_raises (b : bytes) (e : exn) :
  Trk.decode_cp857 b = Raise e -> e = UnicodeDecodeError.
Proof.
  induction b as [|x b IH]; cbn [Trk.decode_cp857]; [discriminate|].
  destruct (Trk.cp857_char x) as [c|e'] eqn:Hc; cbn [bind].
  - destruct (Trk.decode_cp857 b) as [s|e']; cbn [bind]; [discriminate|].
    intros H. apply IH. congruence.
  - intros H. unfold Trk.cp857_char in Hc.
    destruct (byte_val x <? 128); [discriminate|].
    destruct (_ =? 65534); congruence.
Qed.

Lemma ReadFile_exceptions_no_terminator :
  let data := [x00; x00; x00] ++ [x00; x00; x00]
              ++ List.concat (repeat [x07; x00; x00] 675) ++ [x00; x6c; x65] in
  (forall b e, Trk.decode_cp857 b = Raise e -> e = UnicodeDecodeError)
  /\ Trk.ReadFile Trk.title_ascii Trk.decode_cp857 data = Some (Raise IndexError)
  /\ (IndexError = StructError \/ IndexError = IndexError
      \/ IndexError = UnicodeDecodeError).
Proof.
  intros data.
  assert (Hread : Trk.ReadFile Trk.title_ascii Trk.decode_cp857 data
                  = Some (Raise IndexError)) by (vm_compute; reflexivity).
  split; [exact decode_cp857_raises|]. split; [exact Hread|].
  exact (ReadFile_exceptions Trk.title_ascii Trk.decode_cp857 decode_cp857_raises
           data IndexError Hread).
Defined.

(** * Two more properties of the English-Turkish reader *)

Section Stem.

Variable title : str -> str.
Variable decode : bytes -> result str.

Lemma read_buckets_no_entries (fuel : nat) (offsets : list Z) (i : Z) (data : bytes)
    (pos : Z) (previous_word : str) (dictionary : list (str * str)) :
  Forall (fun offset => offset = 0) offsets ->
  Trk.read_buckets title decode fuel offsets i data pos pos previous_word dictionary
  = Some (Ok dictionary).
Proof.
  intros Hzero. revert i.
  induction Hzero as [|offset offsets Hoffset Hrest IH]; intros i; [reflexivity|].
  subst offset. cbn [Trk.read_buckets].
  assert (Hbucket : Trk.read_bucket title decode fuel i data pos (pos + 0) pos
                      previous_word dictionary
                    = Some (Ok (pos, previous_word, dictionary))).
  { destruct fuel; cbn [Trk.read_bucket];
      destruct (Z.ltb_spec pos (pos + 0)); try lia; reflexivity. }
  rewrite Hbucket. apply IH.
Qed.

(** X26. An offset map whose 676 offsets are all zero declares no entry:
    ReadFile writes the empty text and reads nothing of what follows
    the map. *)
Theorem ReadFile_no_entries (data : bytes) (offsets : list Z) (pos : Z) :
  Trk.read_offsets (Z.to_nat (26 * 26)) data 3 = Ok (offsets, pos) ->
  Forall (fun offset => offset = 0) offsets ->
  Trk.ReadFile title decode data = Some (Ok []).
Proof.
  intros Hoffsets Hzero. unfold Trk.ReadFile. rewrite Hoffsets.
  rewrite read_buckets_no_entries by assumption. reflexivity.
Qed.


End Stem.


Lemma ReadFile_no_entries_zero :
  let data := repeat x00 2031 ++ [x00; x6c; x65] in
  Trk.read_offsets (Z.to_nat (26 * 26)) data 3 = Ok (repeat 0 676, 2031)
  /\ Forall (fun offset => offset = 0) (repeat 0 676)
  /\ Trk.ReadFile Trk.title_ascii Trk.decode_cp857 data = Some (Ok []).
Proof.
  intros data.
  assert (Hoffsets : Trk.read_offsets (Z.to_nat (26 * 26)) data 3
                     = Ok (repeat 0 676, 2031)) by (vm_compute; reflexivity).
  assert (Hzero : Forall (fun offset => offset = 0) (repeat 0 676)).
  { apply Forall_forall. intros offset Hin. apply repeat_spec in Hin. exact Hin. }
  split; [exact Hoffsets|]. split; [exact Hzero|].
  exact (ReadFile_no_entries Trk.title_ascii Trk.decode_cp857 data (repeat 0 676) 2031
           Hoffsets Hzero).
Defined.

